(** * Autograding runner: process lifecycle, score extraction, orchestration

    Shallow embedding of [runner.ts] (the file that [autograding.ts] imports
    as [./runner]): [indent], [waitForExit], [runSetup], [runCommand], [run]
    and [runAll].

    - A JavaScript string is a list of UTF-16 code units.
    - A JavaScript number is [NaN] or the mathematical value it denotes, an
      exact rational; rounding to binary64, overflow to Infinity and the sign
      of zero are not modelled.
    - A child process is what the event loop delivers for it: a list of
      events (stream data, the timer callback, [exit], [error]), in the
      order the callbacks run.
    - Console writes, spawns, timers, kills and the calls into
      [@actions/core] are recorded in a trace of effects. *)

From Stdlib Require Import List String Ascii NArith ZArith QArith Qround Bool Lia.
From Stdlib Require Floats.SpecFloat.
Import ListNotations.

Local Open Scope list_scope.

(** ** JavaScript strings *)

Module JsString.

Definition jsstr := list N.

(** A source literal: every character of a literal of [runner.ts] used here
    is ASCII, so its code unit is its byte. *)
Definition js (s : string) : jsstr := map N_of_ascii (list_ascii_of_string s).

(** [\d] *)
Definition is_digit (c : N) : bool := (48 <=? c)%N && (c <=? 57)%N.

(** [[\d\.]] *)
Definition is_digit_or_dot (c : N) : bool := is_digit c || (c =? 46)%N.

(** [\s]: WhiteSpace and LineTerminator code units of ECMAScript. *)
Definition is_space (c : N) : bool :=
  ((9 <=? c) && (c <=? 13) || (c =? 32) || (c =? 160) || (c =? 5760)
   || (8192 <=? c) && (c <=? 8202) || (c =? 8232) || (c =? 8233)
   || (c =? 8239) || (c =? 8287) || (c =? 12288) || (c =? 65279))%N.

End JsString.
Import JsString.

(** ** JavaScript numbers *)

Module JsNumber.

Inductive number :=
| NaN
| Num (q : Q).

Definition zero : number := Num 0.

(** [a + b] *)
Definition add (a b : number) : number :=
  match a, b with
  | Num p, Num q => Num (Qred (p + q))
  | _, _ => NaN
  end.

(** [a - b] *)
Definition sub (a b : number) : number :=
  match a, b with
  | Num p, Num q => Num (Qred (p - q))
  | _, _ => NaN
  end.

(** [a * b] *)
Definition mul (a b : number) : number :=
  match a, b with
  | Num p, Num q => Num (Qred (p * q))
  | _, _ => NaN
  end.

(** [a / b] for a non-zero divisor (the only divisor of the source is the
    constant 1000000). *)
Definition div (a b : number) : number :=
  match a, b with
  | Num p, Num q => if Qeq_bool q 0 then NaN else Num (Qred (p / q))
  | _, _ => NaN
  end.

(** [Math.floor] *)
Definition floor (a : number) : number :=
  match a with
  | Num p => Num (inject_Z (Qfloor p))
  | NaN => NaN
  end.

(** [Math.round]: the integer nearest to the argument, ties towards
    +Infinity. *)
Definition round (a : number) : number :=
  match a with
  | Num p => Num (inject_Z (Qfloor (p + (1 # 2))))
  | NaN => NaN
  end.

(** [a > b] *)
Definition gt (a b : number) : bool :=
  match a, b with
  | Num p, Num q => negb (Qle_bool p q)
  | _, _ => false
  end.

(** [a === b] on two numbers. *)
Definition strict_eq (a b : number) : bool :=
  match a, b with
  | Num p, Num q => Qeq_bool p q
  | _, _ => false
  end.

(** [a === b] where [b] may be [undefined] ([None]). *)
Definition strict_eq_opt (a : number) (b : option number) : bool :=
  match b with
  | Some b' => strict_eq a b'
  | None => false
  end.

(** ToBoolean of a number: [0] and [NaN] are falsy. *)
Definition truthy (a : number) : bool :=
  match a with
  | Num p => negb (Qeq_bool p 0)
  | NaN => false
  end.

(** ToBoolean of a possibly-undefined number. *)
Definition truthy_opt (a : option number) : bool :=
  match a with
  | Some a' => truthy a'
  | None => false
  end.

(** [a || b] where [a] may be [undefined]. *)
Definition or_else (a : option number) (b : number) : number :=
  match a with
  | Some a' => if truthy a' then a' else b
  | None => b
  end.

Definition of_Z (z : Z) : number := Num (inject_Z z).

(** *** parseFloat

    Longest prefix that is a StrDecimalLiteral.  The function is only ever
    applied to the capture of the score pattern (digits and dots), where no white space, sign, exponent
    or [Infinity] can occur, so the literal is [digits], [digits.],
    [digits.digits] or [.digits]; anything else parses to [NaN]. *)

Fixpoint span (p : N -> bool) (s : jsstr) : jsstr * jsstr :=
  match s with
  | c :: s' =>
      if p c then let (a, b) := span p s' in (c :: a, b) else ([], s)
  | [] => ([], [])
  end.

(** Value of a run of decimal digits, most significant first. *)
Fixpoint digits_value (acc : Z) (ds : jsstr) : Z :=
  match ds with
  | d :: ds' => digits_value (10 * acc + (Z.of_N d - 48)) ds'
  | [] => acc
  end.

Definition decimal (int_part frac_part : jsstr) : number :=
  let scale := Z.pow 10 (Z.of_nat (List.length frac_part)) in
  let mant := digits_value 0 (int_part ++ frac_part) in
  Num (Qred (Qmake mant (Z.to_pos scale))).

Definition parseFloat (s : jsstr) : number :=
  let (int_part, rest) := span is_digit s in
  match rest with
  | 46%N :: rest' =>
      let (frac_part, _) := span is_digit rest' in
      match int_part, frac_part with
      | [], [] => NaN
      | _, _ => decimal int_part frac_part
      end
  | _ =>
      match int_part with
      | [] => NaN
      | _ => decimal int_part []
      end
  end.

End JsNumber.
Import JsNumber.

(** ** JavaScript numbers, as binary64

    Where the last bit of a product matters, a number is the IEEE 754
    binary64 value the program holds, and [*] is the multiplication rounded
    to nearest, ties to even. *)

Module Binary64.

Definition prec : Z := 53.
Definition emax : Z := 1024.

Definition double := SpecFloat.spec_float.

(** [a * b] *)
Definition mul (a b : double) : double := SpecFloat.SFmul prec emax a b.

(** The double of an integer literal. *)
Definition of_Z (z : Z) : double := SpecFloat.binary_normalize prec emax z 0 false.

(** [a === b] on two numbers. *)
Definition strict_eq (a b : double) : bool := SpecFloat.SFeqb a b.

(** ToBoolean of a number: [+0], [-0] and [NaN] are falsy. *)
Definition truthy (a : double) : bool :=
  match a with
  | SpecFloat.S754_zero _ | SpecFloat.S754_nan => false
  | _ => true
  end.

(** [a || b] where [a] may be [undefined]. *)
Definition or_else (a : option double) (b : double) : double :=
  match a with
  | Some a' => if truthy a' then a' else b
  | None => b
  end.

(** The rational a finite double denotes. *)
Definition value (a : double) : option Q :=
  match a with
  | SpecFloat.S754_zero _ => Some 0
  | SpecFloat.S754_finite s m e =>
      Some (Qred (inject_Z (if s then Z.neg m else Z.pos m) * Qpower 2 e))
  | _ => None
  end.


End Binary64.

(** ** Regular expressions

    The fragment of ECMAScript patterns that the score pattern is written in:
    literal characters, a greedy starred character class, with or without a
    capturing group around it, and [$] (no [m] flag: end of input only).
    Matching is the backtracking of the language: a greedy star first takes
    as many characters as it can and gives them back one by one while the
    rest of the pattern fails. *)

Module Regex.

Inductive node :=
| Char (c : N)
| Star (cls : N -> bool)
| GroupStar (cls : N -> bool)
| End_.

Definition pattern := list node.

Definition chars (s : string) : pattern := map Char (js s).

Section Star.
Context {R : Type}.
Variable cls : N -> bool.
Variable k : jsstr -> jsstr -> option R.

(** [taken] is what the star has consumed so far, [s] what remains. *)
Fixpoint star_greedy (taken s : jsstr) : option R :=
  match s with
  | c :: s' =>
      if cls c then
        match star_greedy (taken ++ [c]) s' with
        | Some r => Some r
        | None => k taken s
        end
      else k taken s
  | [] => k taken []
  end.
End Star.

(** Match [p] against a prefix of [s]; [cap] is capture 1 so far.  The
    result is capture 1 of the match. *)
Fixpoint match_here (p : pattern) (cap : option jsstr) (s : jsstr)
  : option (option jsstr) :=
  match p with
  | [] => Some cap
  | Char c :: p' =>
      match s with
      | x :: s' => if (x =? c)%N then match_here p' cap s' else None
      | [] => None
      end
  | Star cls :: p' =>
      star_greedy cls (fun _ rest => match_here p' cap rest) [] s
  | GroupStar cls :: p' =>
      star_greedy cls (fun taken rest => match_here p' (Some taken) rest) [] s
  | End_ :: p' =>
      match s with
      | [] => match_here p' cap []
      | _ :: _ => None
      end
  end.

(** [regexp.exec(s)] on a fresh regular expression ([lastIndex] is 0): the
    match at the leftmost start index that has one. *)
Fixpoint exec (p : pattern) (s : jsstr) : option (option jsstr) :=
  match match_here p None s with
  | Some cap => Some cap
  | None =>
      match s with
      | _ :: s' => exec p s'
      | [] => None
      end
  end.

End Regex.

(** The pattern of [runCommand]: the literal text [[overall score: ], a
    capturing group around a greedy star of the class of digits and dots,
    a closing bracket, a greedy star of white space, and the end anchor. *)
Definition regexp : Regex.pattern :=
  Regex.chars "[overall score: "
    ++ [Regex.GroupStar is_digit_or_dot; Regex.Char 93; Regex.Star is_space;
        Regex.End_].

(** Lines 155-160 of [runCommand]: the value computed from [output]. *)
Definition extract_score (output : jsstr) : number :=
  match Regex.exec regexp output with
  | Some (Some m1) => parseFloat m1
  | Some None => NaN
  | None => zero
  end.

Definition nl : jsstr := [10%N].

(** ** Errors, effects and the data model *)

(** A template literal: its text and the values interpolated into it. *)
Inductive frag :=
| Text (s : string)
| Str (s : jsstr)
| Number (n : number)
| ExitCode (code : option Z)
| Signal (signal : option jsstr).

Definition template := list frag.

(** The exceptions that can travel through [run]: the two classes the file
    throws, with their message, and whatever the [error] event of the child
    carries. *)
Inductive error :=
| TestTimeoutError (message : template)
| TestError (message : template)
| SpawnError (message : template).

Definition message (e : error) : template :=
  match e with
  | TestTimeoutError m => m
  | TestError m => m
  | SpawnError m => m
  end.

Inductive TestComparison := exact | included | regex.

(** [interface Test].  An optional field, and a field that the code guards
    against being absent, is an [option]. *)
Record Test := {
  name : jsstr;
  setup : option jsstr;
  run_ : jsstr;
  input : option jsstr;
  output : option jsstr;
  timeout : option number;
  points : option number;
  comparison : TestComparison
}.

(** One entry of the [env] option given to [spawn]. *)
Inductive env_entry :=
| Inherited (key : string)
| Fixed (key value : string).

Definition child_env : list env_entry :=
  [Inherited "PATH"; Fixed "FORCE_COLOR" "true"].

(** What a child process and its streams do to the outside. *)
Inductive proc_effect :=
| Spawn (command cwd : jsstr) (env : list env_entry)
| StdoutWrite (s : jsstr)
| StderrWrite (s : jsstr)
| StdinWrite (s : jsstr)
| StdinEnd
| SetTimeout (ms : number)
| ClearTimeout
| Kill.

(** The lines [runAll] logs; colours and glyphs are left to the sink. *)
Inductive log_line :=
| Blank
| StopCommands (token : jsstr)
| ResumeCommands (token : jsstr)
| Header (test_name : jsstr)
| Passed (test_name : jsstr)
| Failed (test_name : jsstr)
| AllTestsPassed
| Sparkles
| PointsBanner (text : template).

Inductive effect :=
| Child (e : proc_effect)
| Log (l : log_line)
| SetFailed (message : template)
| SetOutput (key : string) (value : template)
| SetCheckRunOutput (text : template).

(** What the event loop delivers for one child, to the listeners the file
    registers.  The [error] event of [child.stdin], on which no listener is
    registered, is not among them: see [stdin_fault]. *)
Inductive event :=
| StdoutData (chunk : jsstr)
| StderrData (chunk : jsstr)
| TimerFires
| ChildExit (code : option Z) (signal : option jsstr)
| ChildError (err : error).

(** ** Outcomes

    [Blocked]: the awaited promise is still pending when the events given
    for the child are exhausted. *)
Inductive outcome (A : Type) :=
| Returned (a : A)
| Thrown (e : error)
| Blocked.
Arguments Returned {A} a.
Arguments Thrown {A} e.
Arguments Blocked {A}.

(** Computations of the process layer: a result and the effects emitted. *)
Module Proc.

Definition t (A : Type) : Type := outcome A * list proc_effect.

Definition ret {A} (a : A) : t A := (Returned a, []).

Definition bind {A B} (m : t A) (f : A -> t B) : t B :=
  match m with
  | (Returned a, tr) => let (r, tr') := f a in (r, tr ++ tr')
  | (Thrown e, tr) => (Thrown e, tr)
  | (Blocked, tr) => (Blocked, tr)
  end.

Definition emit (e : proc_effect) : t unit := (Returned tt, [e]).

End Proc.

Declare Scope proc_scope.
Delimit Scope proc_scope with proc.
Notation "x <- m ;; k" := (Proc.bind m (fun x => k))
  (at level 61, m at next level, right associativity) : proc_scope.
Notation "m ;; k" := (Proc.bind m (fun _ => k))
  (at level 61, right associativity) : proc_scope.

(** ** indent *)

Fixpoint crlf_to_lf (s : jsstr) : jsstr :=
  match s with
  | c :: s' =>
      match s' with
      | d :: s'' =>
          if ((c =? 13) && (d =? 10))%N then 10%N :: crlf_to_lf s''
          else c :: crlf_to_lf s'
      | [] => [c]
      end
  | [] => []
  end.

Fixpoint lf_to_indented (s : jsstr) : jsstr :=
  match s with
  | c :: s' =>
      if (c =? 10)%N then 10%N :: 32%N :: 32%N :: lf_to_indented s'
      else c :: lf_to_indented s'
  | [] => []
  end.

Definition indent (text : jsstr) : jsstr := lf_to_indented (crlf_to_lf text).

(** ** waitForExit *)

Inductive promise :=
| Pending
| Resolved
| Rejected (e : error).

(** Settling a promise a second time does nothing. *)
Definition resolve (p : promise) : promise :=
  match p with
  | Pending => Resolved
  | _ => p
  end.

Definition reject (p : promise) (e : error) : promise :=
  match p with
  | Pending => Rejected e
  | _ => p
  end.

(** The closure of the promise executor: [timedOut], whether [exitTimeout]
    is still armed, whether the [once] listeners are still registered, and
    the promise. *)
Record wait_state := {
  timedOut : bool;
  timer_armed : bool;
  exit_listener : bool;
  error_listener : bool;
  settled : promise
}.

Definition wait_init : wait_state :=
  {| timedOut := false; timer_armed := true; exit_listener := true;
     error_listener := true; settled := Pending |}.

Definition timeout_message (timeout : number) : template :=
  [Text "Setup timed out in "; Number timeout; Text " milliseconds"].

Definition exit_message (code : option Z) (signal : option jsstr) : template :=
  [Text "Error: Exit with code: "; ExitCode code; Text " and signal: ";
   Signal signal].

(** The callback given to [setTimeout]. *)
Definition on_timer (timeout : number) (w : wait_state)
  : wait_state * list proc_effect :=
  if timer_armed w then
    ({| timedOut := true; timer_armed := false;
        exit_listener := exit_listener w; error_listener := error_listener w;
        settled := reject (settled w) (TestTimeoutError (timeout_message timeout)) |},
     [Kill])
  else (w, []).

(** The [exit] listener. *)
Definition on_exit (code : option Z) (signal : option jsstr) (w : wait_state)
  : wait_state * list proc_effect :=
  if exit_listener w then
    if timedOut w then
      ({| timedOut := timedOut w; timer_armed := timer_armed w;
          exit_listener := false; error_listener := error_listener w;
          settled := settled w |}, [])
    else
      ({| timedOut := timedOut w; timer_armed := false;
          exit_listener := false; error_listener := error_listener w;
          settled :=
            match code with
            | Some 0%Z => resolve (settled w)
            | _ => reject (settled w) (TestError (exit_message code signal))
            end |},
       [ClearTimeout])
  else (w, []).

(** The [error] listener. *)
Definition on_error (err : error) (w : wait_state)
  : wait_state * list proc_effect :=
  if error_listener w then
    if timedOut w then
      ({| timedOut := timedOut w; timer_armed := timer_armed w;
          exit_listener := exit_listener w; error_listener := false;
          settled := settled w |}, [])
    else
      ({| timedOut := timedOut w; timer_armed := false;
          exit_listener := exit_listener w; error_listener := false;
          settled := reject (settled w) err |},
       [ClearTimeout])
  else (w, []).

(** A spawned child as [waitForExit] and its callers see it: the [data]
    listeners on its two streams, the variables [L] those listeners close
    over, and the events still to come. *)
Record child (L : Type) := {
  stdout_on_data : jsstr -> L -> L * list proc_effect;
  stderr_on_data : jsstr -> L -> L * list proc_effect;
  events : list event
}.
Arguments stdout_on_data {L} c.
Arguments stderr_on_data {L} c.
Arguments events {L} c.

(** One turn of the event loop. *)
Definition deliver {L} (c : child L) (timeout : number) (ev : event)
  (w : wait_state) (l : L) : wait_state * L * list proc_effect :=
  match ev with
  | StdoutData chunk => let (l', tr) := stdout_on_data c chunk l in (w, l', tr)
  | StderrData chunk => let (l', tr) := stderr_on_data c chunk l in (w, l', tr)
  | TimerFires => let (w', tr) := on_timer timeout w in (w', l, tr)
  | ChildExit code signal => let (w', tr) := on_exit code signal w in (w', l, tr)
  | ChildError err => let (w', tr) := on_error err w in (w', l, tr)
  end.

(** The whole life of the closure: every event is delivered, also those
    that come after the promise has settled. *)
Fixpoint deliver_all {L} (c : child L) (timeout : number) (evs : list event)
  (w : wait_state) (l : L) : wait_state * L * list proc_effect :=
  match evs with
  | [] => (w, l, [])
  | ev :: evs' =>
      let '(w1, l1, tr1) := deliver c timeout ev w l in
      let '(w2, l2, tr2) := deliver_all c timeout evs' w1 l1 in
      (w2, l2, tr1 ++ tr2)
  end.

(** [await] of the promise: events are delivered until it settles, and the
    caller resumes with the variables as they are then. *)
Fixpoint await {L} (c : child L) (timeout : number) (evs : list event)
  (w : wait_state) (l : L) : Proc.t L :=
  match evs with
  | [] => (Blocked, [])
  | ev :: evs' =>
      let '(w1, l1, tr1) := deliver c timeout ev w l in
      match settled w1 with
      | Pending => let (r, tr2) := await c timeout evs' w1 l1 in (r, tr1 ++ tr2)
      | Resolved => (Returned l1, tr1)
      | Rejected e => (Thrown e, tr1)
      end
  end.

Definition waitForExit {L} (c : child L) (timeout : number) (l : L) : Proc.t L :=
  let (r, tr) := await c timeout (events c) wait_init l in
  (r, SetTimeout timeout :: tr).

Local Open Scope proc_scope.

(** ** runSetup, runCommand, run *)

(** [!test.setup || test.setup === ''] *)
Definition no_setup (test : Test) : bool :=
  match setup test with
  | None | Some [] => true
  | Some (_ :: _) => false
  end.

Definition setup_command (test : Test) : jsstr :=
  match setup test with
  | Some s => s
  | None => []
  end.

(** The [setup] child with the listeners [runSetup] registers. *)
Definition setup_child (evs : list event) : child unit :=
  {| stdout_on_data := fun chunk l => (l, [StdoutWrite (indent chunk)]);
     stderr_on_data := fun chunk l => (l, [StderrWrite (indent chunk)]);
     events := evs |}.

Definition runSetup (test : Test) (cwd : jsstr) (timeout : number)
  (evs : list event) : Proc.t unit :=
  if no_setup test then Proc.ret tt
  else
    Proc.emit (Spawn (setup_command test) cwd child_env) ;;
    Proc.emit (StdoutWrite (indent nl)) ;;
    waitForExit (setup_child evs) timeout tt.

(** [test.input && test.input !== ''] *)
Definition has_input (test : Test) : bool :=
  match input test with
  | Some (_ :: _) => true
  | _ => false
  end.

Definition input_text (test : Test) : jsstr :=
  match input test with
  | Some s => s
  | None => []
  end.

(** The main child with the listeners [runCommand] registers; the variable
    they close over is [output]. *)
Definition command_child (evs : list event) : child jsstr :=
  {| stdout_on_data := fun chunk output =>
       (output ++ chunk, [StdoutWrite (indent chunk)]);
     stderr_on_data := fun chunk output =>
       (output, [StderrWrite (indent chunk)]);
     events := evs |}.

Definition runCommand (test : Test) (cwd : jsstr) (timeout : number)
  (evs : list event) : Proc.t number :=
  Proc.emit (Spawn (run_ test) cwd child_env) ;;
  Proc.emit (StdoutWrite (indent nl)) ;;
  (if has_input test then
     Proc.emit (StdinWrite (input_text test)) ;; Proc.emit StdinEnd
   else Proc.ret tt) ;;
  output <- waitForExit (command_child evs) timeout [] ;;
  Proc.ret (extract_score output).

(** What the environment does during one test: the events of the setup
    child, the pair [seconds, nanoseconds] that [process.hrtime(start)]
    returns after the setup, and the events of the main child. *)
Record behaviour := {
  setup_events : list event;
  elapsed : N * N;
  run_events : list event
}.

(** [(test.timeout || 1) * 60 * 1000 || 30000] *)
Definition initial_timeout (test : Test) : number :=
  or_else
    (Some (mul (mul (or_else (timeout test) (of_Z 1)) (of_Z 60)) (of_Z 1000)))
    (of_Z 30000).


(** [Math.floor(elapsed[0] * 1000 + elapsed[1] / 1000000)] *)
Definition elapsed_ms (e : N * N) : number :=
  floor (add (mul (of_Z (Z.of_N (fst e))) (of_Z 1000))
             (div (of_Z (Z.of_N (snd e))) (of_Z 1000000))).

Definition run (test : Test) (cwd : jsstr) (b : behaviour) : Proc.t number :=
  let timeout := initial_timeout test in
  runSetup test cwd timeout (setup_events b) ;;
  let timeout := sub timeout (elapsed_ms (elapsed b)) in
  runCommand test cwd timeout (run_events b).

(** ** runAll *)

(** The variables of [runAll] and everything done to the outside so far. *)
Record store := {
  v_points : number;
  v_availablePoints : number;
  v_failed : bool;
  v_trace : list effect
}.

(** Computations of [runAll]: the variables are threaded through, and an
    exception leaves them as they were when it was thrown. *)
Module M.

Definition t (A : Type) : Type := store -> outcome A * store.

Definition ret {A} (a : A) : t A := fun s => (Returned a, s).

Definition bind {A B} (m : t A) (f : A -> t B) : t B :=
  fun s =>
    match m s with
    | (Returned a, s') => f a s'
    | (Thrown e, s') => (Thrown e, s')
    | (Blocked, s') => (Blocked, s')
    end.

Definition throw {A} (e : error) : t A := fun s => (Thrown e, s).

Definition try_catch {A} (m : t A) (handler : error -> t A) : t A :=
  fun s =>
    match m s with
    | (Thrown e, s') => handler e s'
    | r => r
    end.

Definition get : t store := fun s => (Returned s, s).

Definition emits (tr : list effect) (s : store) : store :=
  {| v_points := v_points s; v_availablePoints := v_availablePoints s;
     v_failed := v_failed s; v_trace := v_trace s ++ tr |}.

Definition emit (e : effect) : t unit := fun s => (Returned tt, emits [e] s).

(** A computation of the process layer, its effects appended to the trace. *)
Definition lift {A} (m : Proc.t A) : t A :=
  fun s => (fst m, emits (map Child (snd m)) s).

Definition set_points (p : number) : t unit :=
  fun s => (Returned tt,
            {| v_points := p; v_availablePoints := v_availablePoints s;
               v_failed := v_failed s; v_trace := v_trace s |}).

Definition set_availablePoints (p : number) : t unit :=
  fun s => (Returned tt,
            {| v_points := v_points s; v_availablePoints := p;
               v_failed := v_failed s; v_trace := v_trace s |}).

Definition set_failed (b : bool) : t unit :=
  fun s => (Returned tt,
            {| v_points := v_points s; v_availablePoints := v_availablePoints s;
               v_failed := b; v_trace := v_trace s |}).

End M.

Declare Scope m_scope.
Delimit Scope m_scope with m.
Notation "x <- m ;; k" := (M.bind m (fun x => k))
  (at level 61, m at next level, right associativity) : m_scope.
Notation "m ;; k" := (M.bind m (fun _ => k))
  (at level 61, right associativity) : m_scope.

Local Open Scope m_scope.

Definition log (l : log_line) : M.t unit := M.emit (Log l).

(** What [runAll] gets from outside the file: the token of [uuidv4()], the
    behaviour of the children of each test, in order, and whether the promise
    of [setCheckRunOutput] rejects. *)
Record world := {
  token : jsstr;
  behaviours : list behaviour;
  setCheckRunOutput : template -> option error
}.

(** A test for which the environment gives no behaviour has children that
    never emit an event. *)
Definition silent : behaviour :=
  {| setup_events := []; elapsed := (0%N, 0%N); run_events := [] |}.

(** The [try] statement that is the body of the loop. *)
Definition runAll_test (test : Test) (cwd : jsstr) (b : behaviour) : M.t unit :=
  M.try_catch
    (match points test with
     | Some p =>
         if truthy p then
           s <- M.get ;;
           M.set_availablePoints (add (v_availablePoints s) p)
         else M.ret tt
     | None => M.ret tt
     end ;;
     log (Header (name test)) ;;
     log Blank ;;
     test_result <- M.lift (run test cwd b) ;;
     s <- M.get ;;
     M.set_points (add (v_points s) test_result) ;;
     log Blank ;;
     (if strict_eq_opt test_result (points test) then
        log (Passed (name test))
      else
        M.set_failed true ;;
        log (Failed (name test))) ;;
     log Blank)
    (fun error =>
       M.set_failed true ;;
       log Blank ;;
       log (Failed (name test)) ;;
       M.emit (SetFailed (message error))).

(** [for (const test of tests)] *)
Fixpoint runAll_loop (tests : list Test) (cwd : jsstr) (bs : list behaviour)
  : M.t unit :=
  match tests with
  | [] => M.ret tt
  | test :: tests' =>
      runAll_test test cwd (hd silent bs) ;;
      runAll_loop tests' cwd (tl bs)
  end.

Definition points_text (points availablePoints : number) : template :=
  [Text "Points "; Number points; Text "/"; Number availablePoints].

Definition points_output (points availablePoints : number) : template :=
  [Number points; Text "/"; Number availablePoints].

Definition runAll_body (tests : list Test) (cwd : jsstr) (w : world) : M.t unit :=
  log Blank ;;
  log (StopCommands (token w)) ;;
  log Blank ;;
  runAll_loop tests cwd (behaviours w) ;;
  log Blank ;;
  log (ResumeCommands (token w)) ;;
  s <- M.get ;;
  (if v_failed s then M.ret tt
   else
     log Blank ;;
     log AllTestsPassed ;;
     log Blank ;;
     log Sparkles ;;
     log Blank) ;;
  s <- M.get ;;
  M.set_points (round (v_points s)) ;;
  s <- M.get ;;
  if gt (v_points s) zero then
    let text := points_text (v_points s) (v_availablePoints s) in
    log (PointsBanner text) ;;
    M.emit (SetOutput "Points" (points_output (v_points s) (v_availablePoints s))) ;;
    M.emit (SetCheckRunOutput text) ;;
    match setCheckRunOutput w text with
    | Some e => M.throw e
    | None => M.ret tt
    end
  else M.ret tt.

(** [let points = 0], [let availablePoints = 0], [let failed = false] *)
Definition runAll_init : store :=
  {| v_points := zero; v_availablePoints := zero; v_failed := false;
     v_trace := [] |}.

Definition runAll (tests : list Test) (cwd : jsstr) (w : world)
  : outcome unit * store :=
  runAll_body tests cwd w runAll_init.

(** ** Notions used in the statements

    Predicates on buffers, events and traces, and closed forms of what the
    code above computes; each closed form is proved equal to the code it
    stands for before it is used ([runAll_test_closed],
    [runAll_loop_complete], [runAll_unfold]). *)

(** The part of the pattern after the literal text. *)
Definition regexp_tail : Regex.pattern :=
  [Regex.GroupStar is_digit_or_dot; Regex.Char 93; Regex.Star is_space; Regex.End_].

(** The literal text that opens a marker. *)
Definition marker_open : jsstr := js "[overall score: ".

(** [output] ends in a marker whose numeric part is [num]: some text, the
    marker, then white space only. *)
Definition marker_at_end (output num : jsstr) : Prop :=
  exists pre ws,
    output = pre ++ marker_open ++ num ++ 93%N :: ws
    /\ forallb is_digit_or_dot num = true
    /\ forallb is_space ws = true.

(** The event is a chunk of one of the two streams. *)
Definition is_data (ev : event) : bool :=
  match ev with
  | StdoutData _ | StderrData _ => true
  | _ => false
  end.

(** What the [data] listeners alone do with a list of events. *)
Fixpoint feed {L} (c : child L) (evs : list event) (l : L)
  : L * list proc_effect :=
  match evs with
  | [] => (l, [])
  | ev :: evs' =>
      let (l1, tr1) :=
        match ev with
        | StdoutData chunk => stdout_on_data c chunk l
        | StderrData chunk => stderr_on_data c chunk l
        | _ => (l, [])
        end in
      let (l2, tr2) := feed c evs' l1 in
      (l2, tr1 ++ tr2)
  end.

(** The text the main child wrote to its standard output. *)
Fixpoint stdout_text (evs : list event) : jsstr :=
  match evs with
  | StdoutData chunk :: evs' => chunk ++ stdout_text evs'
  | _ :: evs' => stdout_text evs'
  | [] => []
  end.

(** The console writes of the two [data] listeners. *)
Fixpoint data_trace (evs : list event) : list proc_effect :=
  match evs with
  | StdoutData chunk :: evs' => StdoutWrite (indent chunk) :: data_trace evs'
  | StderrData chunk :: evs' => StderrWrite (indent chunk) :: data_trace evs'
  | _ :: evs' => data_trace evs'
  | [] => []
  end.

(** What the statement guarded by [test.input] does. *)
Definition stdin_trace (test : Test) : list proc_effect :=
  if has_input test then [StdinWrite (input_text test); StdinEnd] else [].

(** The effect is on the standard input of the child. *)
Definition touches_stdin (e : proc_effect) : bool :=
  match e with
  | StdinWrite _ | StdinEnd => true
  | _ => false
  end.

(** [availablePoints] after the first statement of the [try] block. *)
Definition available_after (test : Test) (s : store) : number :=
  match points test with
  | Some p => if truthy p then add (v_availablePoints s) p else v_availablePoints s
  | None => v_availablePoints s
  end.

(** What one pass through the body of the loop appends to the trace. *)
Definition test_trace (test : Test) (cwd : jsstr) (b : behaviour) : list effect :=
  Log (Header (name test)) :: Log Blank :: map Child (snd (run test cwd b))
  ++ match fst (run test cwd b) with
     | Returned x =>
         [Log Blank;
          Log (if strict_eq_opt x (points test) then Passed (name test)
               else Failed (name test));
          Log Blank]
     | Thrown e => [Log Blank; Log (Failed (name test)); SetFailed (message e)]
     | Blocked => []
     end.

(** The variables after one pass through the body of the loop. *)
Definition test_store (test : Test) (cwd : jsstr) (b : behaviour) (s : store)
  : store :=
  {| v_points :=
       match fst (run test cwd b) with
       | Returned x => add (v_points s) x
       | _ => v_points s
       end;
     v_availablePoints := available_after test s;
     v_failed :=
       match fst (run test cwd b) with
       | Returned x => if strict_eq_opt x (points test) then v_failed s else true
       | Thrown _ => true
       | Blocked => v_failed s
       end;
     v_trace := v_trace s ++ test_trace test cwd b |}.

(** Some event of the child is not stream data: its timer fires, it exits,
    or it fails to spawn. *)
Definition settles (evs : list event) : bool :=
  existsb (fun ev => negb (is_data ev)) evs.

(** Both children of a test settle (the setup child only if there is one). *)
Definition complete (test : Test) (b : behaviour) : bool :=
  (no_setup test || settles (setup_events b)) && settles (run_events b).

(** Every test is complete with the behaviour the loop gives it. *)
Fixpoint all_complete (tests : list Test) (bs : list behaviour) : bool :=
  match tests with
  | [] => true
  | test :: tests' => complete test (hd silent bs) && all_complete tests' (tl bs)
  end.

(** The effects the body of the loop can have. *)
Definition from_loop (e : effect) : bool :=
  match e with
  | Child _ | SetFailed _ => true
  | Log (Header _) | Log Blank | Log (Passed _) | Log (Failed _) => true
  | _ => false
  end.

(** The effects by which [runAll] reports the points. *)
Definition reports_points (e : effect) : bool :=
  match e with
  | Log (PointsBanner _) | SetOutput _ _ | SetCheckRunOutput _ => true
  | _ => false
  end.

(** The names in the headers logged, in order. *)
Fixpoint headers (tr : list effect) : list jsstr :=
  match tr with
  | Log (Header n) :: tr' => n :: headers tr'
  | _ :: tr' => headers tr'
  | [] => []
  end.

(** The variables after the loop, when no test blocks. *)
Fixpoint loop_store (cwd : jsstr) (tests : list Test) (bs : list behaviour)
  (s : store) : store :=
  match tests with
  | [] => s
  | test :: tests' =>
      loop_store cwd tests' (tl bs) (test_store test cwd (hd silent bs) s)
  end.

(** What [runAll] does after the loop. *)
Definition runAll_end (w : world) (s1 : store) : outcome unit * store :=
  let closing :=
    [Log Blank; Log (ResumeCommands (token w))]
    ++ (if v_failed s1 then []
        else [Log Blank; Log AllTestsPassed; Log Blank; Log Sparkles; Log Blank]) in
  let total := round (v_points s1) in
  let text := points_text total (v_availablePoints s1) in
  if gt total zero then
    (match setCheckRunOutput w text with
     | Some e => Thrown e
     | None => Returned tt
     end,
     {| v_points := total; v_availablePoints := v_availablePoints s1;
        v_failed := v_failed s1;
        v_trace := v_trace s1 ++ closing
                   ++ [Log (PointsBanner text);
                       SetOutput "Points" (points_output total (v_availablePoints s1));
                       SetCheckRunOutput text] |})
  else
    (Returned tt,
     {| v_points := total; v_availablePoints := v_availablePoints s1;
        v_failed := v_failed s1; v_trace := v_trace s1 ++ closing |}).

(** The variables and the trace when the loop starts. *)
Definition runAll_start (w : world) : store :=
  M.emits [Log Blank; Log (StopCommands (token w)); Log Blank] runAll_init.

(** A carriage return that ends [a] meets a line feed that starts [b]. *)
Definition splits_crlf (a b : jsstr) : bool :=
  ((last a 0 =? 13) && (hd 0 b =? 10))%N.

(** Every line feed of [s] is followed by two spaces. *)
Fixpoint lf_spaced (s : jsstr) : bool :=
  match s with
  | [] => true
  | c :: s' =>
      if (c =? 10)%N then
        match s' with
        | a :: b :: s'' => (a =? 32)%N && (b =? 32)%N && lf_spaced s''
        | _ => false
        end
      else lf_spaced s'
  end.

(** The text starts with a digit, or with a dot and a digit. *)
Definition starts_number (s : jsstr) : bool :=
  match s with
  | d :: r =>
      is_digit d
      || ((d =? 46)%N && match r with
                         | e :: _ => is_digit e
                         | [] => false
                         end)
  | [] => false
  end.

(** [kill(child.pid)] *)
Definition is_kill (e : proc_effect) : bool :=
  match e with
  | Kill => true
  | _ => false
  end.

(** A write to the console. *)
Definition is_write (e : proc_effect) : bool :=
  match e with
  | StdoutWrite _ | StderrWrite _ => true
  | _ => false
  end.

(** [setTimeout] *)
Definition is_set_timeout (e : proc_effect) : bool :=
  match e with
  | SetTimeout _ => true
  | _ => false
  end.

(** [spawn] *)
Definition is_spawn (e : proc_effect) : bool :=
  match e with
  | Spawn _ _ _ => true
  | _ => false
  end.

(** The [data] listeners of the child only write to the console. *)
Definition tame {L} (c : child L) : Prop :=
  forall chunk l,
    forallb is_write (snd (stdout_on_data c chunk l)) = true
    /\ forallb is_write (snd (stderr_on_data c chunk l)) = true.

(** The event is not a chunk of the standard error. *)
Definition not_stderr (ev : event) : bool :=
  match ev with
  | StderrData _ => false
  | _ => true
  end.

(** The state of the closure after the events. *)
Definition wait_after {L} (c : child L) (timeout : number) (evs : list event)
  (w : wait_state) (l : L) : wait_state :=
  fst (fst (deliver_all c timeout evs w l)).

(** Everything done while the events are delivered. *)
Definition trace_after {L} (c : child L) (timeout : number) (evs : list event)
  (w : wait_state) (l : L) : list proc_effect :=
  snd (deliver_all c timeout evs w l).

(** The timer is armed only while the promise is pending and the timeout
    has not struck, and a timeout that has struck has rejected the promise. *)
Definition armed_ok (timeout : number) (w : wait_state) : Prop :=
  (timer_armed w = true -> settled w = Pending /\ timedOut w = false)
  /\ (timedOut w = true ->
      settled w = Rejected (TestTimeoutError (timeout_message timeout))).

(** The event is [exit] or [error]. *)
Definition is_end (ev : event) : bool :=
  match ev with
  | ChildExit _ _ | ChildError _ => true
  | _ => false
  end.

(** The event is not a chunk of one of the two streams. *)
Definition not_data (ev : event) : bool := negb (is_data ev).

(** The error with which the first event that is not stream data fails the
    wait, if it does. *)
Definition failure_of (timeout : number) (ev : event) : option error :=
  match ev with
  | TimerFires => Some (TestTimeoutError (timeout_message timeout))
  | ChildExit (Some 0%Z) _ => None
  | ChildExit cd signal => Some (TestError (exit_message cd signal))
  | ChildError err => Some err
  | _ => None
  end.

(** The run of the test returns a score that is strictly equal to the
    declared points. *)
Definition passes (cwd : jsstr) (test : Test) (b : behaviour) : bool :=
  match fst (run test cwd b) with
  | Returned x => strict_eq_opt x (points test)
  | _ => false
  end.

(** Every test passes with the behaviour the loop gives it. *)
Fixpoint all_pass (cwd : jsstr) (tests : list Test) (bs : list behaviour) : bool :=
  match tests with
  | [] => true
  | test :: tests' => passes cwd test (hd silent bs) && all_pass cwd tests' (tl bs)
  end.

(** The sum of the declared points that are truthy, in the order of the
    tests. *)
Definition declared_points (tests : list Test) : number :=
  fold_left
    (fun a test =>
       match points test with
       | Some p => if truthy p then add a p else a
       | None => a
       end)
    tests zero.


(** ** The standard input of the main child

    [runCommand] writes [test.input] to [child.stdin] (line 149) and
    registers no listener on that stream.  When the write fails (the child
    has closed its end: EPIPE) the stream emits [error]; with no listener
    Node raises the error as an uncaught exception and the process exits on
    the spot: no [catch] block runs and nothing more is logged.  The stream
    can fail only after a write, that is for a test with a non-empty input
    whose setup has returned.  The failure is modelled while the promise of
    the main child is pending: a fault strikes among the chunks of stream
    data that come before the first [exit], [error] or timer event. *)

(** [child.stdin] emits [error] with [fault_error] after [after_events]
    chunks of stream data of the main child have been delivered (after all
    those that precede the settlement, if there are fewer). *)
Record stdin_fault := {
  after_events : nat;
  fault_error : error
}.

(** The events that come while the promise is certainly pending: the
    chunks of stream data before the first event of another kind. *)
Fixpoint leading_data (evs : list event) : list event :=
  match evs with
  | ev :: evs' => if is_data ev then ev :: leading_data evs' else []
  | [] => []
  end.

(** The behaviour up to the failure of the stream. *)
Definition cut_run (b : behaviour) (k : nat) : behaviour :=
  {| setup_events := setup_events b; elapsed := elapsed b;
     run_events := firstn k (leading_data (run_events b)) |}.

(** The input has been written: the test has one and its setup, if any,
    has returned, so that [runCommand] is running. *)
Definition awaiting_main (test : Test) (cwd : jsstr) (b : behaviour) : bool :=
  has_input test
  && match fst (runSetup test cwd (initial_timeout test) (setup_events b)) with
     | Returned _ => true
     | _ => false
     end.

(** How the process ends: [runAll] finishes, with its outcome, or the
    process is killed by an uncaught exception, with the variables and the
    trace as they were then. *)
Inductive process_end :=
| Finished (r : outcome unit * store)
| Killed (e : error) (s : store).

(** The loop of [runAll] in a process whose stdin streams may fail: one
    fault, or none, for each test. *)
Fixpoint runAll_loop_process (tests : list Test) (cwd : jsstr)
  (bs : list behaviour) (faults : list (option stdin_fault)) (s : store)
  : process_end :=
  match tests with
  | [] => Finished (Returned tt, s)
  | test :: tests' =>
      let b := hd silent bs in
      let go_on :=
        match runAll_test test cwd b s with
        | (Returned _, s1) =>
            runAll_loop_process tests' cwd (tl bs) (tl faults) s1
        | r => Finished r
        end in
      match hd None faults with
      | Some f =>
          if awaiting_main test cwd b then
            Killed (fault_error f)
              (snd (runAll_test test cwd (cut_run b (after_events f)) s))
          else go_on
      | None => go_on
      end
  end.

(** [runAll] in such a process. *)
Definition runAll_process (tests : list Test) (cwd : jsstr) (w : world)
  (faults : list (option stdin_fault)) : process_end :=
  match runAll_loop_process tests cwd (behaviours w) faults (runAll_start w) with
  | Finished (Returned _, s1) => Finished (runAll_end w s1)
  | other => other
  end.

(** ** Sample data *)

Definition mk_test (n : string) (su : option jsstr) (r : string)
  (i : option jsstr) (t p : option number) : Test :=
  {| name := js n; setup := su; run_ := js r; input := i; output := None;
     timeout := t; points := p; comparison := included |}.

Definition echo_test : Test :=
  mk_test "echo" None "echo '[overall score: 1]'" None (Some (of_Z 1)) (Some (of_Z 1)).

Definition echo_behaviour : behaviour :=
  {| setup_events := [];
     elapsed := (0%N, 41000%N);
     run_events := [StdoutData (js "[overall score: 1]" ++ nl); ChildExit (Some 0%Z) None] |}.

Definition quiet_world (bs : list behaviour) : world :=
  {| token := js "t0"; behaviours := bs; setCheckRunOutput := fun _ => None |}.

Definition scored_test : Test :=
  mk_test "graded" None "make grade" None (Some (of_Z 1)) (Some (of_Z 5)).

Definition scored_events : list event :=
  [StdoutData (js "building" ++ nl); StderrData (js "warning" ++ nl);
   StdoutData (js "[overall score: 7.5]" ++ nl)].

Definition middle_marker_events : list event :=
  [StdoutData (js "[overall score: 7.5]" ++ nl ++ js "done" ++ nl)].

Definition stdin_test : Test :=
  mk_test "reads" None "./sum" (Some (js "1 2")) (Some (of_Z 1)) (Some (of_Z 2)).

(** The main child of the first test closes its standard input without
    reading it, prints and exits with code 0. *)
Definition closed_stdin_behaviour : behaviour :=
  {| setup_events := []; elapsed := (0%N, 0%N);
     run_events := [StdoutData (js "[overall score: 2]" ++ nl); ChildExit (Some 0%Z) None] |}.

Definition epipe : stdin_fault :=
  {| after_events := 1; fault_error := SpawnError [Text "write EPIPE"] |}.

Definition slow_setup_test : Test :=
  mk_test "slow" (Some (js "make")) "make grade" None (Some (of_Z 1)) (Some (of_Z 5)).

Definition slow_setup_behaviour : behaviour :=
  {| setup_events := [StdoutData (js "cc main.c"); ChildExit (Some 0%Z) None];
     elapsed := (20%N, 700000%N);
     run_events := [StdoutData (js "[overall score: 5]" ++ nl); ChildExit (Some 0%Z) None] |}.

Definition half_minute_test : Test :=
  mk_test "quick" (Some (js "make")) "make grade" None (Some (Num (1 # 2)))
    (Some (of_Z 5)).

Definition failing_test : Test :=
  mk_test "second" None "./hang" None (Some (of_Z 1)) (Some (of_Z 5)).

Definition three_tests : list Test :=
  [echo_test; failing_test; echo_test].

Definition three_behaviours : list behaviour :=
  [echo_behaviour;
   {| setup_events := []; elapsed := (0%N, 0%N);
      run_events := [StdoutData (js "..."); TimerFires; ChildExit None (Some (js "SIGTERM"))] |};
   echo_behaviour].

Definition ungraded_test : Test :=
  mk_test "lint" None "make lint" None (Some (of_Z 1)) None.

Definition ungraded_behaviour : behaviour :=
  {| setup_events := []; elapsed := (0%N, 0%N);
     run_events := [StdoutData (js "clean" ++ nl); ChildExit (Some 0%Z) None] |}.

Definition empty_marker_behaviour : behaviour :=
  {| setup_events := []; elapsed := (0%N, 0%N);
     run_events := [StdoutData (js "[overall score: ]" ++ nl); ChildExit (Some 0%Z) None] |}.

Definition crlf_space : jsstr := [13%N; 10%N; 32%N].


Definition failed_store : store :=
  {| v_points := of_Z 3; v_availablePoints := of_Z 5; v_failed := true;
     v_trace := [] |}.

(** * Properties *)

(** ** Sample runs *)

Example extract_score_ex1 :
  extract_score (js "ok" ++ nl ++ js "[overall score: 7.5]" ++ nl) = Num (15 # 2).
Proof. vm_compute. reflexivity. Qed.

Example runAll_echo :
  let (r, s) := runAll [echo_test] (js "/w") (quiet_world [echo_behaviour]) in
  r = Returned tt /\ v_points s = of_Z 1 /\ v_availablePoints s = of_Z 1
  /\ v_failed s = false.
Proof. vm_compute. repeat split; reflexivity. Qed.

(** ** The score pattern *)

Section SpanFacts.
Variable p : N -> bool.

Lemma span_app_stop (a b : jsstr) :
  forallb p a = true ->
  (forall c b', b = c :: b' -> p c = false) ->
  span p (a ++ b) = (a, b).
Proof.
  intros Ha Hb. induction a as [|x a IH]; simpl in *.
  - destruct b as [|c b']; [reflexivity|].
    simpl. now rewrite (Hb c b' eq_refl).
  - apply andb_true_iff in Ha as [Hx Ha].
    now rewrite Hx, (IH Ha).
Qed.

Lemma span_spec (s : jsstr) :
  forallb p (fst (span p s)) = true
  /\ s = fst (span p s) ++ snd (span p s)
  /\ (forall c b', snd (span p s) = c :: b' -> p c = false).
Proof.
  induction s as [|x s IH]; simpl.
  - repeat split. intros c b' H. discriminate H.
  - destruct (p x) eqn:Hx.
    + destruct (span p s) as [a b]. simpl in *.
      destruct IH as (H1 & H2 & H3). rewrite Hx, H1. repeat split; auto.
      now rewrite <- H2.
    + simpl. repeat split. intros c b' H. now inversion H; subst.
Qed.

Lemma forallb_rev (l : jsstr) : forallb p (rev l) = forallb p l.
Proof.
  induction l as [|x l IH]; simpl; [reflexivity|].
  rewrite forallb_app, IH. simpl. rewrite andb_true_r. apply andb_comm.
Qed.
End SpanFacts.

Section StarFacts.
Context {R : Type}.
Variable cls : N -> bool.
Variable k : jsstr -> jsstr -> option R.

Lemma star_greedy_sound (s taken : jsstr) (r : R) :
  Regex.star_greedy cls k taken s = Some r ->
  exists a b, s = a ++ b /\ forallb cls a = true /\ k (taken ++ a) b = Some r.
Proof.
  revert taken. induction s as [|c s IH]; intros taken H; simpl in H.
  - exists [], []. rewrite (app_nil_r taken). repeat split; assumption.
  - destruct (cls c) eqn:Hc.
    + destruct (Regex.star_greedy cls k (taken ++ [c]) s) as [r'|] eqn:E.
      * inversion H; subst r'. destruct (IH _ E) as (a & b & -> & Ha & Hk).
        exists (c :: a), b. simpl. rewrite Hc, Ha.
        rewrite <- app_assoc in Hk. repeat split; assumption.
      * exists [], (c :: s). rewrite (app_nil_r taken). repeat split; assumption.
    + exists [], (c :: s). rewrite (app_nil_r taken). repeat split; assumption.
Qed.

Lemma star_greedy_complete (a b taken : jsstr) :
  forallb cls a = true ->
  k (taken ++ a) b <> None ->
  Regex.star_greedy cls k taken (a ++ b) <> None.
Proof.
  revert taken. induction a as [|x a IH]; intros taken Ha Hk; simpl in *.
  - rewrite app_nil_r in Hk. destruct b as [|c b]; simpl; [exact Hk|].
    destruct (cls c); [|exact Hk].
    destruct (Regex.star_greedy cls k (taken ++ [c]) b); [discriminate|exact Hk].
  - apply andb_true_iff in Ha as [Hx Ha]. rewrite Hx.
    specialize (IH (taken ++ [x]) Ha). rewrite <- app_assoc in IH.
    specialize (IH Hk).
    destruct (Regex.star_greedy cls k (taken ++ [x]) (a ++ b));
      [discriminate|contradiction].
Qed.
End StarFacts.

Lemma match_here_chars (l : jsstr) (p : Regex.pattern) cap (s : jsstr) r :
  Regex.match_here (map Regex.Char l ++ p) cap s = Some r <->
  exists s', s = l ++ s' /\ Regex.match_here p cap s' = Some r.
Proof.
  revert s. induction l as [|c l IH]; intros s; simpl.
  - split; [intros H; now exists s | intros (s' & -> & H); exact H].
  - destruct s as [|x s].
    + split; [discriminate | intros (s' & H & _); discriminate].
    + destruct (N.eqb_spec x c) as [->|Hne].
      * rewrite IH. split; intros (s' & E & H); exists s'; split; auto.
        -- now rewrite E.
        -- now inversion E.
      * split; [discriminate|]. intros (s' & E & _). inversion E. contradiction.
Qed.

Lemma regexp_tail_sound cap (s : jsstr) r :
  Regex.match_here regexp_tail cap s = Some r ->
  exists num ws, s = num ++ 93%N :: ws /\ forallb is_digit_or_dot num = true
                 /\ forallb is_space ws = true /\ r = Some num.
Proof.
  unfold regexp_tail. cbn [Regex.match_here]. intros H.
  apply star_greedy_sound in H as (num & b & -> & Hnum & H).
  destruct b as [|x b]; [discriminate|].
  destruct (N.eqb_spec x 93) as [->|]; [|discriminate].
  apply star_greedy_sound in H as (ws & e & -> & Hws & H).
  destruct e; [|discriminate]. inversion H. simpl.
  exists num, ws. rewrite app_nil_r. now repeat split.
Qed.

Lemma regexp_tail_complete cap (num ws : jsstr) :
  forallb is_digit_or_dot num = true -> forallb is_space ws = true ->
  Regex.match_here regexp_tail cap (num ++ 93%N :: ws) <> None.
Proof.
  intros Hnum Hws. unfold regexp_tail. cbn [Regex.match_here].
  apply star_greedy_complete; [exact Hnum|]. simpl.
  rewrite <- (app_nil_r ws).
  apply star_greedy_complete; [exact Hws|]. discriminate.
Qed.

Lemma exec_sound (p : Regex.pattern) (s : jsstr) r :
  Regex.exec p s = Some r ->
  exists pre suf, s = pre ++ suf /\ Regex.match_here p None suf = Some r.
Proof.
  induction s as [|c s IH]; simpl; intros H.
  - destruct (Regex.match_here p None []) eqn:E; [|discriminate].
    inversion H; subst. now exists [], [].
  - destruct (Regex.match_here p None (c :: s)) eqn:E.
    + inversion H; subst. now exists [], (c :: s).
    + destruct (IH H) as (pre & suf & -> & Hm). now exists (c :: pre), suf.
Qed.

Lemma exec_complete (p : Regex.pattern) (pre suf : jsstr) :
  Regex.match_here p None suf <> None -> Regex.exec p (pre ++ suf) <> None.
Proof.
  intros H. induction pre as [|c pre IH]; simpl.
  - destruct suf; simpl; destruct (Regex.match_here p None _); congruence.
  - destruct (Regex.match_here p None (c :: pre ++ suf)); [discriminate|exact IH].
Qed.

Lemma exec_regexp_sound (output : jsstr) r :
  Regex.exec regexp output = Some r ->
  exists num, r = Some num /\ marker_at_end output num.
Proof.
  intros H. apply exec_sound in H as (pre & suf & -> & H).
  unfold regexp, Regex.chars in H. apply match_here_chars in H as (s' & -> & H).
  apply regexp_tail_sound in H as (num & ws & -> & Hn & Hw & ->).
  exists num. split; [reflexivity|]. now exists pre, ws.
Qed.

Lemma exec_regexp_complete (output num : jsstr) :
  marker_at_end output num -> Regex.exec regexp output <> None.
Proof.
  intros (pre & ws & -> & Hn & Hw). apply exec_complete.
  destruct (Regex.match_here regexp None (marker_open ++ num ++ 93%N :: ws)) eqn:E;
    [discriminate|].
  exfalso. apply (regexp_tail_complete None num ws Hn Hw).
  destruct (Regex.match_here regexp_tail None (num ++ 93%N :: ws)) eqn:E'; [|reflexivity].
  assert (Regex.match_here regexp None (marker_open ++ num ++ 93%N :: ws) = Some o) as C.
  { unfold regexp, Regex.chars. apply match_here_chars. eexists; split; [reflexivity|exact E']. }
  congruence.
Qed.

(** Read from the end of the buffer, a marker is: white space, the closing
    bracket, the digits and dots, then the literal text. *)
Lemma marker_at_end_rev (output num : jsstr) :
  marker_at_end output num ->
  exists pre ws,
    rev output = rev ws ++ 93%N :: rev num ++ rev marker_open ++ rev pre
    /\ forallb is_digit_or_dot (rev num) = true
    /\ forallb is_space (rev ws) = true.
Proof.
  intros (pre & ws & -> & Hn & Hw). exists pre, ws.
  rewrite !forallb_rev. repeat split; auto.
  rewrite !rev_app_distr. cbn [rev]. rewrite <- !app_assoc. reflexivity.
Qed.

Lemma marker_at_end_unique (output n1 n2 : jsstr) :
  marker_at_end output n1 -> marker_at_end output n2 -> n1 = n2.
Proof.
  intros H1 H2.
  apply marker_at_end_rev in H1 as (p1 & w1 & E1 & Hn1 & Hw1).
  apply marker_at_end_rev in H2 as (p2 & w2 & E2 & Hn2 & Hw2).
  assert (span is_space (rev output) = (rev w1, 93%N :: rev n1 ++ rev marker_open ++ rev p1)) as S1.
  { rewrite E1. apply span_app_stop; [exact Hw1|]. intros c b' H. now inversion H. }
  assert (span is_space (rev output) = (rev w2, 93%N :: rev n2 ++ rev marker_open ++ rev p2)) as S2.
  { rewrite E2. apply span_app_stop; [exact Hw2|]. intros c b' H. now inversion H. }
  assert (rev n1 ++ rev marker_open ++ rev p1
          = rev n2 ++ rev marker_open ++ rev p2) as Hr by congruence.
  assert (span is_digit_or_dot (rev n1 ++ rev marker_open ++ rev p1)
          = (rev n1, rev marker_open ++ rev p1)) as T1.
  { apply span_app_stop; [exact Hn1|]. intros c b' H. now inversion H. }
  assert (span is_digit_or_dot (rev n2 ++ rev marker_open ++ rev p2)
          = (rev n2, rev marker_open ++ rev p2)) as T2.
  { apply span_app_stop; [exact Hn2|]. intros c b' H. now inversion H. }
  assert (rev n1 = rev n2) as Hn by congruence.
  rewrite <- (rev_involutive n1), <- (rev_involutive n2). now rewrite Hn.
Qed.

Lemma extract_score_marker (output num : jsstr) :
  marker_at_end output num -> extract_score output = parseFloat num.
Proof.
  intros H. unfold extract_score.
  destruct (Regex.exec regexp output) as [r|] eqn:E.
  - apply exec_regexp_sound in E as (n' & -> & H').
    now rewrite (marker_at_end_unique _ _ _ H' H).
  - now apply exec_regexp_complete in H.
Qed.

Lemma extract_score_no_marker (output : jsstr) :
  (forall num, ~ marker_at_end output num) -> extract_score output = zero.
Proof.
  intros H. unfold extract_score.
  destruct (Regex.exec regexp output) as [r|] eqn:E; [|reflexivity].
  apply exec_regexp_sound in E as (n' & -> & H'). now apply H in H'.
Qed.

(** ** The event loop *)

Lemma feed_command_child (evs0 evs : list event) (l : jsstr) :
  feed (command_child evs0) evs l = (l ++ stdout_text evs, data_trace evs).
Proof.
  revert l. induction evs as [|ev evs IH]; intros l; simpl.
  - now rewrite app_nil_r.
  - destruct ev; simpl; rewrite IH; try rewrite <- app_assoc; reflexivity.
Qed.

Lemma feed_setup_child (evs0 evs : list event) (l : unit) :
  feed (setup_child evs0) evs l = (tt, data_trace evs).
Proof.
  revert l. induction evs as [|ev evs IH]; intros l; simpl.
  - now destruct l.
  - destruct ev; simpl; rewrite IH; reflexivity.
Qed.

Section EventLoop.
Context {L : Type}.
Variable c : child L.
Variable timeout : number.

Lemma await_data (datas rest : list event) (w : wait_state) (l : L) :
  forallb is_data datas = true ->
  settled w = Pending ->
  await c timeout (datas ++ rest) w l =
    let (l1, tr1) := feed c datas l in
    let (r, tr2) := await c timeout rest w l1 in
    (r, tr1 ++ tr2).
Proof.
  intros Hd Hw. revert l.
  induction datas as [|ev datas IH]; intros l; simpl.
  - now destruct (await c timeout rest w l).
  - simpl in Hd. apply andb_true_iff in Hd as [Hev Hd].
    destruct ev; try discriminate; simpl.
    + destruct (stdout_on_data c chunk l) as [l1 tr1]. rewrite Hw, (IH Hd).
      destruct (feed c datas l1) as [l2 tr2].
      destruct (await c timeout rest w l2) as [r tr3].
      now rewrite app_assoc.
    + destruct (stderr_on_data c chunk l) as [l1 tr1]. rewrite Hw, (IH Hd).
      destruct (feed c datas l1) as [l2 tr2].
      destruct (await c timeout rest w l2) as [r tr3].
      now rewrite app_assoc.
Qed.

Lemma deliver_all_data (datas rest : list event) (w : wait_state) (l : L) :
  forallb is_data datas = true ->
  deliver_all c timeout (datas ++ rest) w l =
    let (l1, tr1) := feed c datas l in
    let '(w2, l2, tr2) := deliver_all c timeout rest w l1 in
    (w2, l2, tr1 ++ tr2).
Proof.
  intros Hd. revert l.
  induction datas as [|ev datas IH]; intros l; simpl.
  - now destruct (deliver_all c timeout rest w l) as [[w2 l2] tr2].
  - simpl in Hd. apply andb_true_iff in Hd as [Hev Hd].
    destruct ev; try discriminate; simpl.
    + destruct (stdout_on_data c chunk l) as [l1 tr1]. rewrite (IH Hd).
      destruct (feed c datas l1) as [l2 tr2].
      destruct (deliver_all c timeout rest w l2) as [[w3 l3] tr3].
      now rewrite app_assoc.
    + destruct (stderr_on_data c chunk l) as [l1 tr1]. rewrite (IH Hd).
      destruct (feed c datas l1) as [l2 tr2].
      destruct (deliver_all c timeout rest w l2) as [[w3 l3] tr3].
      now rewrite app_assoc.
Qed.

(** Once the timer callback has run, the later events reach the [data]
    listeners only: the promise and the timer are left alone and nothing
    else is done. *)
Lemma deliver_all_after_timeout (evs : list event) (w : wait_state) (l : L) :
  timedOut w = true -> timer_armed w = false ->
  exists w',
    deliver_all c timeout evs w l = (w', fst (feed c evs l), snd (feed c evs l))
    /\ settled w' = settled w /\ timedOut w' = true /\ timer_armed w' = false.
Proof.
  revert w l. induction evs as [|ev evs IH]; intros w l Ht Ha; simpl.
  - now exists w.
  - destruct ev; simpl.
    + destruct (stdout_on_data c chunk l) as [l1 tr1].
      destruct (IH w l1 Ht Ha) as (w' & E & H1 & H2 & H3). rewrite E.
      exists w'. destruct (feed c evs l1). now repeat split.
    + destruct (stderr_on_data c chunk l) as [l1 tr1].
      destruct (IH w l1 Ht Ha) as (w' & E & H1 & H2 & H3). rewrite E.
      exists w'. destruct (feed c evs l1). now repeat split.
    + unfold on_timer. rewrite Ha.
      destruct (IH w l Ht Ha) as (w' & E & H1 & H2 & H3). rewrite E.
      exists w'. destruct (feed c evs l). now repeat split.
    + unfold on_exit. rewrite Ht. destruct (exit_listener w).
      * match goal with
        | |- context [deliver_all c timeout evs ?w1 l] =>
            destruct (IH w1 l eq_refl Ha) as (w' & E & H1 & H2 & H3)
        end.
        rewrite E. exists w'. destruct (feed c evs l). now repeat split.
      * destruct (IH w l Ht Ha) as (w' & E & H1 & H2 & H3). rewrite E.
        exists w'. destruct (feed c evs l). now repeat split.
    + unfold on_error. rewrite Ht. destruct (error_listener w).
      * match goal with
        | |- context [deliver_all c timeout evs ?w1 l] =>
            destruct (IH w1 l eq_refl Ha) as (w' & E & H1 & H2 & H3)
        end.
        rewrite E. exists w'. destruct (feed c evs l). now repeat split.
      * destruct (IH w l Ht Ha) as (w' & E & H1 & H2 & H3). rewrite E.
        exists w'. destruct (feed c evs l). now repeat split.
Qed.

(** The first event that is not stream data decides the awaited promise. *)
Lemma waitForExit_first (datas rest : list event) (ev : event) (l : L) :
  forallb is_data datas = true ->
  is_data ev = false ->
  events c = datas ++ ev :: rest ->
  waitForExit c timeout l =
    let (l1, tr1) := feed c datas l in
    match ev with
    | TimerFires =>
        (Thrown (TestTimeoutError (timeout_message timeout)),
         SetTimeout timeout :: tr1 ++ [Kill])
    | ChildExit (Some 0%Z) _ =>
        (Returned l1, SetTimeout timeout :: tr1 ++ [ClearTimeout])
    | ChildExit code signal =>
        (Thrown (TestError (exit_message code signal)),
         SetTimeout timeout :: tr1 ++ [ClearTimeout])
    | ChildError err =>
        (Thrown err, SetTimeout timeout :: tr1 ++ [ClearTimeout])
    | _ => (Returned l1, [])
    end.
Proof.
  intros Hd Hev E. unfold waitForExit. rewrite E.
  rewrite (await_data datas (ev :: rest) wait_init l Hd eq_refl).
  destruct (feed c datas l) as [l1 tr1].
  destruct ev as [ch|ch| |cd sg|err]; try discriminate; simpl.
  - reflexivity.
  - destruct cd as [[|p|p]|]; reflexivity.
  - reflexivity.
Qed.
End EventLoop.

(** ** runCommand *)

Lemma runCommand_unfold (test : Test) (cwd : jsstr) (timeout : number)
  (evs : list event) :
  runCommand test cwd timeout evs =
    let (r, tr) := await (command_child evs) timeout evs wait_init [] in
    (match r with
     | Returned output => Returned (extract_score output)
     | Thrown e => Thrown e
     | Blocked => Blocked
     end,
     Spawn (run_ test) cwd child_env :: StdoutWrite (indent nl)
       :: stdin_trace test ++ SetTimeout timeout :: tr).
Proof.
  unfold runCommand, stdin_trace, waitForExit. simpl.
  destruct (await (command_child evs) timeout evs wait_init []) as [r tr].
  destruct (has_input test); destruct r; simpl; rewrite ?app_nil_r; reflexivity.
Qed.

(** The main child exits with code 0 before the timer fires. *)
Lemma runCommand_exit_zero (test : Test) (cwd : jsstr) (timeout : number)
  (datas rest : list event) (signal : option jsstr) :
  forallb is_data datas = true ->
  runCommand test cwd timeout (datas ++ ChildExit (Some 0%Z) signal :: rest) =
    (Returned (extract_score (stdout_text datas)),
     Spawn (run_ test) cwd child_env :: StdoutWrite (indent nl)
       :: stdin_trace test ++ SetTimeout timeout
       :: data_trace datas ++ [ClearTimeout]).
Proof.
  intros Hd. rewrite runCommand_unfold.
  rewrite (await_data (command_child _) timeout datas _ wait_init (@nil N) Hd eq_refl).
  rewrite feed_command_child. reflexivity.
Qed.

(** One more event, then the induction hypothesis at the state reached. *)
Ltac await_next IH :=
  match goal with
  | |- context [await ?c ?t ?evs ?w1 ?l1] =>
      specialize (IH w1 l1); destruct (await c t evs w1 l1); exact IH
  end.

Lemma await_command_no_stdin (evs0 evs : list event) (timeout : number)
  (w : wait_state) (l : jsstr) :
  filter touches_stdin (snd (await (command_child evs0) timeout evs w l)) = [].
Proof.
  revert w l. induction evs as [|ev evs IH]; intros w l; simpl; [reflexivity|].
  destruct ev as [ch|ch| |cd sg|err]; simpl;
    unfold on_timer, on_exit, on_error;
    repeat match goal with
           | |- context [if ?b then _ else _] => destruct b
           end;
    simpl;
    match goal with
    | |- context [match ?p with Pending => _ | Resolved => _ | Rejected _ => _ end] =>
        destruct p
    end;
    first [reflexivity | await_next IH].
Qed.

Lemma feed_app {L} (c : child L) (evs1 evs2 : list event) (l : L) :
  feed c (evs1 ++ evs2) l =
    (fst (feed c evs2 (fst (feed c evs1 l))),
     snd (feed c evs1 l) ++ snd (feed c evs2 (fst (feed c evs1 l)))).
Proof.
  revert l. induction evs1 as [|ev evs1 IH]; intros l; simpl.
  - now destruct (feed c evs2 l).
  - destruct (match ev with
              | StdoutData chunk => stdout_on_data c chunk l
              | StderrData chunk => stderr_on_data c chunk l
              | _ => (l, [])
              end) as [l1 tr1].
    rewrite IH. destruct (feed c evs1 l1) as [l2 tr2]. simpl.
    now rewrite app_assoc.
Qed.

Lemma runCommand_exit_nonzero (test : Test) (cwd : jsstr) (timeout : number)
  (datas rest : list event) (cd : option Z) (signal : option jsstr) :
  forallb is_data datas = true ->
  cd <> Some 0%Z ->
  runCommand test cwd timeout (datas ++ ChildExit cd signal :: rest) =
    (Thrown (TestError (exit_message cd signal)),
     Spawn (run_ test) cwd child_env :: StdoutWrite (indent nl)
       :: stdin_trace test ++ SetTimeout timeout
       :: data_trace datas ++ [ClearTimeout]).
Proof.
  intros Hd Hc. rewrite runCommand_unfold.
  rewrite (await_data (command_child _) timeout datas _ wait_init (@nil N) Hd eq_refl).
  rewrite feed_command_child. simpl.
  destruct cd as [[|p|p]|]; try reflexivity. now contradiction Hc.
Qed.

(** ** Claims on waitForExit and runCommand *)

(** C1. Score extraction from the captured standard output of the main
    command.  When the child exits with code 0 before the timer fires,
    [runCommand] returns, for every test (whatever its declared points):
    the value [parseFloat] gives for the numeric part of the marker, if the
    buffer ends in a marker followed by white space only; 0 if the buffer
    ends in no marker; and 7.5 for a buffer that ends in the line
    [[overall score: 7.5]] and a newline. *)
Theorem runCommand_score_extraction :
  forall (test : Test) (cwd : jsstr) (timeout : number)
         (datas rest : list event) (signal : option jsstr),
    forallb is_data datas = true ->
    let result :=
      fst (runCommand test cwd timeout
             (datas ++ ChildExit (Some 0%Z) signal :: rest)) in
    (forall num, marker_at_end (stdout_text datas) num ->
                 result = Returned (parseFloat num))
    /\ ((forall num, ~ marker_at_end (stdout_text datas) num) ->
        result = Returned zero)
    /\ (forall pre, stdout_text datas = pre ++ js "[overall score: 7.5]" ++ nl ->
                    result = Returned (Num (15 # 2))).
Proof.
  intros test cwd timeout datas rest signal Hd result.
  assert (result = Returned (extract_score (stdout_text datas))) as E.
  { unfold result. now rewrite runCommand_exit_zero. }
  rewrite E. repeat split.
  - intros num H. now rewrite (extract_score_marker _ _ H).
  - intros H. now rewrite (extract_score_no_marker _ H).
  - intros pre H.
    assert (marker_at_end (stdout_text datas) (js "7.5")) as M.
    { exists pre, nl. rewrite H. repeat split. }
    now rewrite (extract_score_marker _ _ M).
Qed.

Lemma runCommand_score_extraction_witness :
  fst (runCommand scored_test (js "/w") (of_Z 60000)
         (scored_events ++ ChildExit (Some 0%Z) None :: [StdoutData (js "late")]))
  = Returned (Num (15 # 2)).
Proof.
  apply (runCommand_score_extraction scored_test (js "/w") (of_Z 60000)
           scored_events [StdoutData (js "late")] None eq_refl)
    with (pre := js "building" ++ nl).
  reflexivity.
Defined.

(** C2. When the timer fires before the child has exited or failed to
    spawn, [waitForExit] kills the process tree and rejects with a
    [TestTimeoutError] whose message is the text of line 69 with the timeout
    it was given interpolated: [Setup timed out in], the timeout,
    [milliseconds].  Every later event of the child leaves the promise
    rejected with that same error, clears no timer and kills nothing more:
    only the [data] listeners still run. *)
Theorem waitForExit_timeout_is_final :
  forall (L : Type) (c : child L) (timeout : number)
         (datas later : list event) (l : L),
    forallb is_data datas = true ->
    events c = datas ++ TimerFires :: later ->
    waitForExit c timeout l =
      (Thrown (TestTimeoutError
                 [Text "Setup timed out in "; Number timeout; Text " milliseconds"]),
       SetTimeout timeout :: snd (feed c datas l) ++ [Kill])
    /\ exists w',
         deliver_all c timeout (events c) wait_init l =
           (w', fst (feed c (datas ++ later) l),
            snd (feed c datas l) ++ Kill :: snd (feed c later (fst (feed c datas l))))
         /\ settled w'
            = Rejected (TestTimeoutError
                          [Text "Setup timed out in "; Number timeout;
                           Text " milliseconds"])
         /\ timedOut w' = true.
Proof.
  intros L c timeout datas later l Hd E. split.
  - rewrite (waitForExit_first c timeout datas later TimerFires l Hd eq_refl E).
    now destruct (feed c datas l).
  - rewrite E, (deliver_all_data c timeout datas _ wait_init l Hd), feed_app.
    destruct (feed c datas l) as [l1 tr1]. simpl.
    match goal with
    | |- context [deliver_all c timeout later ?w1 l1] =>
        destruct (deliver_all_after_timeout c timeout later w1 l1 eq_refl eq_refl)
          as (w' & D & S1 & S2 & _)
    end.
    rewrite D. exists w'. repeat split; assumption.
Qed.

Lemma waitForExit_timeout_is_final_witness :
  waitForExit
    (command_child [StdoutData (js "working"); TimerFires; ChildExit None (Some (js "SIGTERM"))])
    (of_Z 40000) []
  = (Thrown (TestTimeoutError
               [Text "Setup timed out in "; Number (of_Z 40000); Text " milliseconds"]),
     [SetTimeout (of_Z 40000); StdoutWrite (js "working"); Kill]).
Proof.
  apply (waitForExit_timeout_is_final jsstr
           (command_child [StdoutData (js "working"); TimerFires;
                           ChildExit None (Some (js "SIGTERM"))])
           (of_Z 40000) [StdoutData (js "working")]
           [ChildExit None (Some (js "SIGTERM"))] [] eq_refl eq_refl).
Defined.

(** C5. When the child exits before the timer fires (and before any [error]
    event), the timer is cleared and can no longer fire; with exit code 0
    the promise resolves, and [runCommand] returns the score of the output
    accumulated so far; with any other code the promise rejects with a
    [TestError] whose message is the text of line 80 with that code and the
    signal interpolated: [Error: Exit with code:], the code, [and signal:],
    the signal. *)
Theorem waitForExit_exit_code :
  forall (L : Type) (c : child L) (timeout : number)
         (datas later : list event) (cd : option Z) (signal : option jsstr) (l : L),
    forallb is_data datas = true ->
    events c = datas ++ ChildExit cd signal :: later ->
    (cd = Some 0%Z ->
     waitForExit c timeout l =
       (Returned (fst (feed c datas l)),
        SetTimeout timeout :: snd (feed c datas l) ++ [ClearTimeout]))
    /\ (cd <> Some 0%Z ->
        waitForExit c timeout l =
          (Thrown (TestError
                     [Text "Error: Exit with code: "; ExitCode cd;
                      Text " and signal: "; Signal signal]),
           SetTimeout timeout :: snd (feed c datas l) ++ [ClearTimeout]))
    /\ (let '(w, _, _) :=
          deliver_all c timeout (datas ++ [ChildExit cd signal]) wait_init l in
        timer_armed w = false /\ on_timer timeout w = (w, []))
    /\ (forall test cwd,
          cd = Some 0%Z ->
          fst (runCommand test cwd timeout (datas ++ ChildExit cd signal :: later))
          = Returned (extract_score (stdout_text datas)))
    /\ (forall test cwd,
          cd <> Some 0%Z ->
          fst (runCommand test cwd timeout (datas ++ ChildExit cd signal :: later))
          = Thrown (TestError
                      [Text "Error: Exit with code: "; ExitCode cd;
                       Text " and signal: "; Signal signal])).
Proof.
  intros L c timeout datas later cd signal l Hd E.
  pose proof (waitForExit_first c timeout datas later (ChildExit cd signal) l
                Hd eq_refl E) as W.
  destruct (feed c datas l) as [l1 tr1] eqn:F. simpl.
  split; [|split; [|split; [|split]]].
  - intros ->. exact W.
  - intros Hc. rewrite W. destruct cd as [[|p|p]|]; try reflexivity.
    now contradiction Hc.
  - rewrite (deliver_all_data c timeout datas _ wait_init l Hd), F. simpl.
    split; reflexivity.
  - intros test cwd ->. now rewrite runCommand_exit_zero.
  - intros test cwd Hc. now rewrite runCommand_exit_nonzero.
Qed.

Lemma waitForExit_exit_code_witness :
  waitForExit (setup_child [StdoutData (js "compiling"); ChildExit (Some 2%Z) None])
    (of_Z 60000) tt
  = (Thrown (TestError
               [Text "Error: Exit with code: "; ExitCode (Some 2%Z);
                Text " and signal: "; Signal None]),
     [SetTimeout (of_Z 60000); StdoutWrite (js "compiling"); ClearTimeout]).
Proof.
  apply (waitForExit_exit_code unit
           (setup_child [StdoutData (js "compiling"); ChildExit (Some 2%Z) None])
           (of_Z 60000) [StdoutData (js "compiling")] [] (Some 2%Z) None tt
           eq_refl eq_refl).
  discriminate.
Defined.

(** A buffer whose last character that is not white space stands in text
    that follows a marker, where that text does not itself end in a marker,
    ends in no marker. *)
Lemma trailing_text_hides_marker (pre num trail : jsstr) :
  forallb is_space trail = false ->
  (forall n, ~ marker_at_end trail n) ->
  forall n, ~ marker_at_end (pre ++ marker_open ++ num ++ 93%N :: trail) n.
Proof.
  intros Htrail Hnone n H.
  apply marker_at_end_rev in H as (p' & w' & E & Hn & Hw).
  assert (rev (pre ++ marker_open ++ num ++ 93%N :: trail)
          = rev trail ++ 93%N :: rev num ++ rev marker_open ++ rev pre) as R.
  { rewrite !rev_app_distr. cbn [rev]. rewrite <- !app_assoc. reflexivity. }
  rewrite R in E. clear R.
  (* the white space at the end of the buffer lies inside [trail] *)
  destruct (span_spec is_space (rev trail)) as (Ht1 & Ht & Hstop).
  destruct (span is_space (rev trail)) as [t1 t2'] eqn:St. cbn [fst snd] in *.
  destruct t2' as [|c t2].
  { rewrite app_nil_r in Ht. rewrite <- Ht, forallb_rev in Ht1. congruence. }
  specialize (Hstop c t2 eq_refl).
  assert (span is_space (rev trail ++ 93%N :: rev num ++ rev marker_open ++ rev pre)
          = (t1, c :: t2 ++ 93%N :: rev num ++ rev marker_open ++ rev pre)) as S1.
  { rewrite Ht, <- app_assoc. apply span_app_stop; [exact Ht1|].
    intros x b' Hx. cbn [app] in Hx. now inversion Hx; subst. }
  assert (span is_space (rev w' ++ 93%N :: rev n ++ rev marker_open ++ rev p')
          = (rev w', 93%N :: rev n ++ rev marker_open ++ rev p')) as S2.
  { apply span_app_stop; [exact Hw|]. intros x b' Hx. now inversion Hx. }
  rewrite E in S1. rewrite S1 in S2.
  assert (c = 93%N) as -> by congruence.
  assert (t2 ++ 93%N :: rev num ++ rev marker_open ++ rev pre
          = rev n ++ rev marker_open ++ rev p') as E2 by congruence.
  assert (t1 = rev w') as -> by congruence.
  clear S1 S2 E.
  (* the digits and dots before the closing bracket lie inside [trail] too *)
  destruct (span_spec is_digit_or_dot t2) as (Hu1 & Hu & Hstop2).
  destruct (span is_digit_or_dot t2) as [u1 u2] eqn:Su. cbn [fst snd] in *.
  assert (span is_digit_or_dot (rev n ++ rev marker_open ++ rev p')
          = (rev n, rev marker_open ++ rev p')) as T2.
  { apply span_app_stop; [exact Hn|]. intros x b' Hx. now inversion Hx. }
  rewrite <- E2 in T2.
  destruct u2 as [|d u2].
  { rewrite app_nil_r in Hu. subst t2.
    rewrite span_app_stop in T2; [|exact Hu1|intros x b' Hx; now inversion Hx].
    inversion T2. }
  assert (span is_digit_or_dot
            (t2 ++ 93%N :: rev num ++ rev marker_open ++ rev pre)
          = (u1, (d :: u2) ++ 93%N :: rev num ++ rev marker_open ++ rev pre)) as T1.
  { rewrite Hu, <- app_assoc. apply span_app_stop; [exact Hu1|].
    intros x b' Hx. cbn [app] in Hx. inversion Hx; subst. now apply (Hstop2 x u2). }
  rewrite T1 in T2.
  assert (rev marker_open ++ rev p'
          = (d :: u2) ++ 93%N :: rev num ++ rev marker_open ++ rev pre) as E3
    by congruence.
  assert (u1 = rev n) as -> by congruence.
  clear T1 T2 E2.
  (* so the literal text lies inside [trail] as well *)
  assert (exists l, d :: u2 = rev marker_open ++ l) as (l & El).
  { apply app_eq_app in E3 as (l & [[A B]|[A B]]).
    - destruct l as [|x l].
      + exists []. now rewrite app_nil_r in *.
      + exfalso. cbn [app] in B. inversion B; subst x.
        assert (In 93%N (rev marker_open)) as I.
        { rewrite A. apply in_or_app. right. now left. }
        vm_compute in I. intuition discriminate.
    - now exists l. }
  apply (Hnone (rev (rev n))).
  exists (rev l), w'. rewrite forallb_rev. rewrite forallb_rev in Hw.
  repeat split; [|exact Hn|exact Hw].
  rewrite <- (rev_involutive trail), Ht, Hu, El.
  rewrite !rev_app_distr. cbn [rev]. rewrite !rev_app_distr.
  rewrite !rev_involutive. cbn [rev app]. rewrite <- !app_assoc. reflexivity.
Qed.

Lemma no_marker_by_exec (s : jsstr) :
  Regex.exec regexp s = None -> forall n, ~ marker_at_end s n.
Proof.
  intros E n H. now apply exec_regexp_complete in H.
Qed.

(** C6, as the code has it.  The pattern is anchored at the end of the
    buffer: when the marker is followed by text that is not all white space
    (and that text does not itself end in a marker), the pattern does not
    match and [runCommand] returns 0, whatever the numeric part of the
    marker is. *)
Theorem marker_followed_by_text_scores_zero :
  forall (test : Test) (cwd : jsstr) (timeout : number)
         (datas rest : list event) (signal : option jsstr)
         (pre num trail : jsstr),
    forallb is_data datas = true ->
    stdout_text datas = pre ++ marker_open ++ num ++ 93%N :: trail ->
    forallb is_space trail = false ->
    (forall n, ~ marker_at_end trail n) ->
    fst (runCommand test cwd timeout
           (datas ++ ChildExit (Some 0%Z) signal :: rest))
    = Returned zero.
Proof.
  intros test cwd timeout datas rest signal pre num trail Hd E Ht Hn.
  rewrite runCommand_exit_zero by exact Hd. simpl.
  rewrite extract_score_no_marker; [reflexivity|].
  rewrite E. now apply trailing_text_hides_marker.
Qed.

Lemma marker_followed_by_text_scores_zero_witness :
  fst (runCommand scored_test (js "/w") (of_Z 60000)
         (middle_marker_events ++ ChildExit (Some 0%Z) None :: []))
  = Returned zero.
Proof.
  apply (marker_followed_by_text_scores_zero scored_test (js "/w") (of_Z 60000)
           middle_marker_events [] None [] (js "7.5") (nl ++ js "done" ++ nl)).
  - reflexivity.
  - reflexivity.
  - reflexivity.
  - apply no_marker_by_exec. vm_compute. reflexivity.
Defined.

(** C6 as stated fails: the marker for 7.5 stands in the middle of the
    buffer, the line [done] follows it, and the score returned is 0, not
    7.5. *)
Lemma marker_in_middle_counterexample :
  fst (runCommand scored_test (js "/w") (of_Z 60000)
         [StdoutData (js "[overall score: 7.5]" ++ nl ++ js "done" ++ nl);
          ChildExit (Some 0%Z) None])
  = Returned zero
  /\ parseFloat (js "7.5") = Num (15 # 2)
  /\ zero <> Num (15 # 2).
Proof.
  split; [vm_compute; reflexivity|]. split; [vm_compute; reflexivity|].
  discriminate.
Qed.

(** C7, as the code has it.  When [input] is present and not empty,
    [runCommand] writes it to the standard input of the child and ends that
    stream, right after the spawn and before the timer is armed, and touches
    the stream no more.  When [input] is absent or empty, [runCommand] does
    nothing to the standard input of the child: it writes nothing and does
    not end the stream. *)
Theorem runCommand_stdin :
  forall (test : Test) (cwd : jsstr) (timeout : number) (evs : list event),
    (forall s, input test = Some s -> s <> [] ->
       filter touches_stdin (snd (runCommand test cwd timeout evs))
       = [StdinWrite s; StdinEnd]
       /\ exists tr,
            snd (runCommand test cwd timeout evs)
            = Spawn (run_ test) cwd child_env :: StdoutWrite (indent nl)
                :: StdinWrite s :: StdinEnd :: SetTimeout timeout :: tr)
    /\ (input test = None \/ input test = Some [] ->
        filter touches_stdin (snd (runCommand test cwd timeout evs)) = []).
Proof.
  intros test cwd timeout evs. rewrite runCommand_unfold.
  pose proof (await_command_no_stdin evs evs timeout wait_init []) as A.
  destruct (await (command_child evs) timeout evs wait_init []) as [r tr].
  simpl in A. unfold stdin_trace, has_input, input_text. split.
  - intros s Hs Hne. rewrite Hs. destruct s as [|x s]; [contradiction|].
    simpl. rewrite A. split; [reflexivity|]. now exists tr.
  - intros [H|H]; rewrite H; simpl; exact A.
Qed.

Lemma runCommand_stdin_witness :
  filter touches_stdin
    (snd (runCommand stdin_test (js "/w") (of_Z 60000) [ChildExit (Some 0%Z) None]))
  = [StdinWrite (js "1 2"); StdinEnd].
Proof.
  apply (runCommand_stdin stdin_test (js "/w") (of_Z 60000)
           [ChildExit (Some 0%Z) None]).
  - reflexivity.
  - discriminate.
Defined.

(** C7 as stated fails: for a test without [input] the standard input of
    the child is never ended. *)
Lemma stdin_not_closed_counterexample :
  input scored_test = None
  /\ ~ In StdinEnd
       (snd (runCommand scored_test (js "/w") (of_Z 60000)
               [StdoutData (js "[overall score: 5]" ++ nl); ChildExit (Some 0%Z) None])).
Proof.
  split; [reflexivity|]. vm_compute. intuition discriminate.
Qed.

(** ** Claims on run *)

Lemma Qred_inject_Z (z : Z) : Qred (inject_Z z) = inject_Z z.
Proof.
  unfold Qred, inject_Z.
  generalize (Z.ggcd_gcd z 1) (Z.ggcd_correct_divisors z 1).
  destruct (Z.ggcd z 1) as (g, (aa, bb)). cbn [fst snd].
  intros Hg [Ha Hb]. rewrite Z.gcd_1_r in Hg. subst g.
  replace aa with z by lia. replace bb with 1%Z by lia. reflexivity.
Qed.

Lemma Num_Qred_eq (p q : Q) : p == q -> Num (Qred p) = Num (Qred q).
Proof.
  intros H. f_equal. now apply Qred_complete.
Qed.

(** [elapsed[0] * 1000 + elapsed[1] / 1000000], rounded down, is a whole
    number of milliseconds: the seconds times 1000 plus the whole
    milliseconds in the nanoseconds. *)
Lemma elapsed_ms_floor (sec ns : N) :
  elapsed_ms (sec, ns) = of_Z (Z.of_N sec * 1000 + Z.of_N ns / 1000000).
Proof.
  unfold elapsed_ms, of_Z, floor, add, mul, div. cbn [fst snd].
  replace (Qeq_bool (inject_Z 1000000) 0) with false by reflexivity.
  f_equal. f_equal.
  set (s := Z.of_N sec). set (n := Z.of_N ns).
  assert (Qred (Qred (inject_Z s * inject_Z 1000)
                + Qred (inject_Z n / inject_Z 1000000))
          == Qmake (s * 1000 * 1000000 + n) 1000000) as E.
  { rewrite !Qred_correct. unfold Qeq, Qdiv, Qmult, Qplus, Qinv, inject_Z.
    cbn [Qnum Qden]. lia. }
  rewrite (Qfloor_comp _ _ E). unfold Qfloor.
  rewrite Z.div_add_l by lia. reflexivity.
Qed.

Lemma run_after_setup (test : Test) (cwd : jsstr) (b : behaviour)
  (tr : list proc_effect) :
  runSetup test cwd (initial_timeout test) (setup_events b) = (Returned tt, tr) ->
  run test cwd b =
    (fst (runCommand test cwd
            (sub (initial_timeout test) (elapsed_ms (elapsed b))) (run_events b)),
     tr ++ snd (runCommand test cwd
                  (sub (initial_timeout test) (elapsed_ms (elapsed b)))
                  (run_events b))).
Proof.
  intros H. unfold run, Proc.bind. rewrite H.
  now destruct (runCommand test cwd _ (run_events b)).
Qed.

(** C4. Budget propagation.  Once the setup phase has returned, [run] calls
    [runCommand] with the budget minus the whole milliseconds of the time
    [process.hrtime] measured for the setup, and that is the delay the timer
    of the main phase is armed with; nothing clamps it, so it is passed on
    as it is when small, zero or negative.  With a budget of 60000 ms and
    [k] whole milliseconds measured, the main phase gets [60000 - k]: 40000
    for 20000. *)
Theorem run_budget_propagation :
  forall (test : Test) (cwd : jsstr) (b : behaviour) (tr : list proc_effect)
         (budget : Q) (sec ns : N),
    runSetup test cwd (initial_timeout test) (setup_events b) = (Returned tt, tr) ->
    initial_timeout test = Num budget ->
    elapsed b = (sec, ns) ->
    let spent := (Z.of_N sec * 1000 + Z.of_N ns / 1000000)%Z in
    let remaining := Num (Qred (budget - inject_Z spent)) in
    run test cwd b =
      (fst (runCommand test cwd remaining (run_events b)),
       tr ++ snd (runCommand test cwd remaining (run_events b)))
    /\ In (SetTimeout remaining) (snd (run test cwd b))
    /\ (budget == inject_Z 60000 -> remaining = of_Z (60000 - spent))
    /\ (budget == inject_Z 60000 -> spent = 20000%Z -> remaining = of_Z 40000).
Proof.
  intros test cwd b tr budget sec ns Hs Hb He spent remaining.
  assert (sub (initial_timeout test) (elapsed_ms (elapsed b)) = remaining) as R.
  { rewrite Hb, He, elapsed_ms_floor. reflexivity. }
  assert (run test cwd b =
            (fst (runCommand test cwd remaining (run_events b)),
             tr ++ snd (runCommand test cwd remaining (run_events b)))) as E.
  { rewrite (run_after_setup test cwd b tr Hs), R. reflexivity. }
  assert (budget == inject_Z 60000 -> remaining = of_Z (60000 - spent)) as C.
  { intros Hq. unfold remaining, of_Z. rewrite <- (Qred_inject_Z (60000 - spent)).
    apply Num_Qred_eq. rewrite Hq. unfold Qeq, Qminus, Qplus, Qopp, inject_Z.
    cbn [Qnum Qden]. lia. }
  split; [exact E|]. split; [|split].
  - rewrite E. cbn [snd]. apply in_or_app. right.
    rewrite runCommand_unfold.
    destruct (await (command_child (run_events b)) remaining (run_events b) wait_init [])
      as [r tr'].
    cbn [snd]. right. right. apply in_or_app. right. now left.
  - exact C.
  - intros Hq Hk. rewrite (C Hq), Hk. reflexivity.
Qed.

Lemma run_budget_propagation_witness :
  In (SetTimeout (of_Z 40000))
     (snd (run slow_setup_test (js "/w") slow_setup_behaviour)).
Proof.
  apply (run_budget_propagation slow_setup_test (js "/w") slow_setup_behaviour
           (snd (runSetup slow_setup_test (js "/w") (of_Z 60000)
                   (setup_events slow_setup_behaviour)))
           (inject_Z 60000) 20%N 700000%N eq_refl eq_refl eq_refl).
Defined.

(** The budget is passed on unclamped: a setup that took 70 s of a 60 s
    budget arms the timer of the main phase with -10000 ms. *)
Example run_negative_budget :
  In (SetTimeout (of_Z (-10000)))
     (snd (run slow_setup_test (js "/w")
             {| setup_events := [ChildExit (Some 0%Z) None];
                elapsed := (70%N, 0%N);
                run_events := [TimerFires] |})).
Proof. vm_compute. intuition. Qed.

(** In exact arithmetic a declared timeout of [t] minutes, [t] a number
    other than 0, resolves to [t * 60000] ms; a timeout of 0 and an absent
    timeout resolve to 60000 ms; and the resolved value is what the timer of
    the setup phase is armed with. *)
Theorem initial_timeout_resolution :
  forall (test : Test) (cwd : jsstr) (b : behaviour),
    (forall t, timeout test = Some (Num t) -> ~ t == 0 ->
               initial_timeout test = Num (Qred (t * inject_Z 60000)))
    /\ (timeout test = None \/ timeout test = Some zero ->
        initial_timeout test = of_Z 60000)
    /\ (no_setup test = false ->
        exists tr,
          snd (run test cwd b)
          = Spawn (setup_command test) cwd child_env :: StdoutWrite (indent nl)
              :: SetTimeout (initial_timeout test) :: tr).
Proof.
  intros test cwd b. split; [|split].
  - intros t Ht Hne. unfold initial_timeout. rewrite Ht.
    assert (Qeq_bool t 0 = false) as F.
    { destruct (Qeq_bool t 0) eqn:Q; [|reflexivity].
      now apply Qeq_bool_iff in Q. }
    cbn [or_else truthy]. rewrite F. cbn [negb mul of_Z truthy].
    assert (~ Qred (Qred (t * inject_Z 60) * inject_Z 1000) == 0) as Hne'.
    { rewrite !Qred_correct. intros Z0. apply Hne.
      unfold Qeq, Qmult, inject_Z in *. cbn [Qnum Qden] in *. lia. }
    destruct (Qeq_bool (Qred (Qred (t * inject_Z 60) * inject_Z 1000)) 0) eqn:Q.
    { now apply Qeq_bool_iff in Q. }
    cbn [negb]. apply Num_Qred_eq. rewrite Qred_correct.
    unfold Qeq, Qmult, inject_Z. cbn [Qnum Qden]. lia.
  - intros [H|H]; unfold initial_timeout; rewrite H; reflexivity.
  - intros Hs. unfold run, runSetup. rewrite Hs.
    unfold waitForExit. cbn [events setup_child].
    destruct (await _ (initial_timeout test) (setup_events b) wait_init tt)
      as [r tr] eqn:A.
    unfold Proc.bind, Proc.emit. cbn [app].
    destruct r as [[]| |]; cbn [app].
    + destruct (runCommand test cwd _ (run_events b)) as [r' tr'].
      eexists. reflexivity.
    + eexists. reflexivity.
    + eexists. reflexivity.
Qed.

Lemma initial_timeout_resolution_witness :
  initial_timeout half_minute_test = of_Z 30000.
Proof.
  refine (proj1 (initial_timeout_resolution half_minute_test (js "/w") silent)
            (1 # 2) eq_refl _).
  discriminate.
Defined.






(** ** runAll: the body of the loop *)

Lemma runAll_test_closed (test : Test) (cwd : jsstr) (b : behaviour) (s : store) :
  runAll_test test cwd b s =
    (match fst (run test cwd b) with
     | Blocked => Blocked
     | _ => Returned tt
     end,
     test_store test cwd b s).
Proof.
  unfold runAll_test, test_store, test_trace, available_after.
  unfold M.try_catch, M.bind, M.lift, log, M.emit, M.get, M.ret,
    M.set_availablePoints, M.set_points, M.set_failed, M.emits.
  destruct (run test cwd b) as [o tr]. destruct s as [p a f t].
  cbn [fst snd v_points v_availablePoints v_failed v_trace].
  destruct (points test) as [pt|]; [destruct (truthy pt)|];
    cbn [fst snd v_points v_availablePoints v_failed v_trace];
    destruct o as [x|e|];
    cbn [fst snd v_points v_availablePoints v_failed v_trace];
    try destruct (strict_eq_opt x _);
    cbn [fst snd v_points v_availablePoints v_failed v_trace];
    repeat rewrite <- app_assoc; rewrite ?app_nil_r; cbn [app]; reflexivity.
Qed.

(** The body of the loop never throws. *)
Lemma runAll_test_never_throws (test : Test) (cwd : jsstr) (b : behaviour)
  (s : store) (e : error) :
  fst (runAll_test test cwd b s) <> Thrown e.
Proof.
  rewrite runAll_test_closed. cbn [fst].
  destruct (fst (run test cwd b)); discriminate.
Qed.

(** ** Children that settle *)

Lemma await_settles {L} (c : child L) (timeout : number) (evs : list event) (l : L) :
  settles evs = true -> fst (await c timeout evs wait_init l) <> Blocked.
Proof.
  revert l. induction evs as [|ev evs IH]; intros l H; [discriminate|].
  simpl in H. destruct ev as [ch|ch| |cd sg|err]; simpl in *.
  - destruct (stdout_on_data c ch l) as [l1 tr1]. specialize (IH l1 H).
    destruct (await c timeout evs wait_init l1). exact IH.
  - destruct (stderr_on_data c ch l) as [l1 tr1]. specialize (IH l1 H).
    destruct (await c timeout evs wait_init l1). exact IH.
  - discriminate.
  - destruct cd as [[|p|p]|]; discriminate.
  - discriminate.
Qed.

Lemma runCommand_not_blocked (test : Test) (cwd : jsstr) (timeout : number)
  (evs : list event) :
  settles evs = true -> fst (runCommand test cwd timeout evs) <> Blocked.
Proof.
  intros H. rewrite runCommand_unfold.
  pose proof (await_settles (command_child evs) timeout evs [] H) as A.
  destruct (await (command_child evs) timeout evs wait_init []) as [r tr].
  cbn [fst] in *. destruct r; congruence.
Qed.

Lemma run_not_blocked (test : Test) (cwd : jsstr) (b : behaviour) :
  complete test b = true -> fst (run test cwd b) <> Blocked.
Proof.
  unfold complete. intros H. apply andb_true_iff in H as [Hs Hr].
  unfold run, Proc.bind.
  destruct (runSetup test cwd (initial_timeout test) (setup_events b))
    as [r tr] eqn:S.
  destruct r as [[]|e|].
  - pose proof (runCommand_not_blocked test cwd
                  (sub (initial_timeout test) (elapsed_ms (elapsed b)))
                  (run_events b) Hr) as C.
    destruct (runCommand test cwd _ (run_events b)). exact C.
  - discriminate.
  - exfalso. unfold runSetup in S. destruct (no_setup test).
    + discriminate S.
    + simpl in Hs. unfold Proc.bind, Proc.emit, waitForExit in S.
      cbn [events setup_child] in S.
      pose proof (await_settles (setup_child (setup_events b))
                    (initial_timeout test) (setup_events b) tt Hs) as A.
      destruct (await (setup_child (setup_events b)) (initial_timeout test)
                  (setup_events b) wait_init tt) as [r' tr'].
      cbn [fst] in A. inversion S. congruence.
Qed.

(** ** runAll: the loop, and the claims on it *)

Lemma headers_app (tr1 tr2 : list effect) :
  headers (tr1 ++ tr2) = headers tr1 ++ headers tr2.
Proof.
  induction tr1 as [|e tr1 IH]; [reflexivity|].
  destruct e as [pe|l|m|k v|t]; try destruct l; simpl; now rewrite IH.
Qed.

Lemma headers_children (tr : list proc_effect) : headers (map Child tr) = [].
Proof.
  induction tr as [|e tr IH]; [reflexivity|exact IH].
Qed.

Lemma headers_test_trace (test : Test) (cwd : jsstr) (b : behaviour) :
  headers (test_trace test cwd b) = [name test].
Proof.
  unfold test_trace. cbn [headers]. rewrite headers_app, headers_children.
  destruct (fst (run test cwd b)) as [x|e|]; try reflexivity.
  now destruct (strict_eq_opt x (points test)).
Qed.

Lemma test_trace_from_loop (test : Test) (cwd : jsstr) (b : behaviour) (e : effect) :
  In e (test_trace test cwd b) -> from_loop e = true.
Proof.
  unfold test_trace. intros [<-|[<-|H]]; try reflexivity.
  apply in_app_or in H as [H|H].
  - apply in_map_iff in H as (pe & <- & _). reflexivity.
  - destruct (fst (run test cwd b)) as [x|er|]; simpl in H.
    + destruct (strict_eq_opt x (points test));
        destruct H as [<-|[<-|[<-|[]]]]; reflexivity.
    + destruct H as [<-|[<-|[<-|[]]]]; reflexivity.
    + contradiction.
Qed.

Section Loop.
Variable cwd : jsstr.

Lemma runAll_loop_complete (tests : list Test) (bs : list behaviour) (s : store) :
  all_complete tests bs = true ->
  runAll_loop tests cwd bs s = (Returned tt, loop_store cwd tests bs s).
Proof.
  revert bs s. induction tests as [|test tests IH]; intros bs s H; simpl.
  - reflexivity.
  - simpl in H. apply andb_true_iff in H as [Hc H].
    unfold M.bind. rewrite runAll_test_closed.
    pose proof (run_not_blocked test cwd (hd silent bs) Hc) as Nb.
    destruct (fst (run test cwd (hd silent bs))); try contradiction;
      now apply IH.
Qed.

Lemma runAll_loop_never_throws (tests : list Test) (bs : list behaviour)
  (s : store) (e : error) :
  fst (runAll_loop tests cwd bs s) <> Thrown e.
Proof.
  revert bs s. induction tests as [|test tests IH]; intros bs s; simpl.
  - discriminate.
  - unfold M.bind. rewrite runAll_test_closed.
    destruct (fst (run test cwd (hd silent bs))); try apply IH. discriminate.
Qed.

Lemma loop_store_headers (tests : list Test) (bs : list behaviour) (s : store) :
  headers (v_trace (loop_store cwd tests bs s))
  = headers (v_trace s) ++ map name tests.
Proof.
  revert bs s. induction tests as [|test tests IH]; intros bs s; simpl.
  - now rewrite app_nil_r.
  - rewrite IH. cbn [test_store v_trace].
    rewrite headers_app, headers_test_trace, <- app_assoc. reflexivity.
Qed.

Lemma loop_trace_origin (tests : list Test) (bs : list behaviour) (s : store)
  (e : effect) :
  In e (v_trace (loop_store cwd tests bs s)) ->
  In e (v_trace s) \/ from_loop e = true.
Proof.
  revert bs s. induction tests as [|test tests IH]; intros bs s H; simpl in H.
  - now left.
  - apply IH in H as [H|H]; [|now right].
    cbn [test_store v_trace] in H. apply in_app_or in H as [H|H]; [now left|].
    right. exact (test_trace_from_loop _ _ _ _ H).
Qed.

(** A property of the variables that every pass keeps and that the pass
    for one test establishes holds after the loop. *)
Lemma loop_store_reaches (P : store -> Prop) (tests : list Test)
  (bs : list behaviour) (s : store) (i : nat) (test : Test) :
  (forall t b s0, P s0 -> P (test_store t cwd b s0)) ->
  nth_error tests i = Some test ->
  (forall s0, P (test_store test cwd (nth i bs silent) s0)) ->
  P (loop_store cwd tests bs s).
Proof.
  intros Keep. revert bs s i.
  assert (forall ts bs s, P s -> P (loop_store cwd ts bs s)) as Stay.
  { induction ts as [|t ts IH]; intros bs s H; simpl; [exact H|].
    apply IH, Keep, H. }
  induction tests as [|t tests IH]; intros bs s i Hi Here.
  - destruct i; discriminate.
  - destruct i as [|i]; simpl in Hi.
    + inversion Hi; subst t. simpl. apply Stay.
      replace (hd silent bs) with (nth 0 bs silent) by now destruct bs.
      apply Here.
    + simpl. apply (IH (tl bs) _ i Hi). intros s0.
      replace (nth i (tl bs) silent) with (nth (S i) bs silent); [apply Here|].
      destruct bs; [now destruct i|reflexivity].
Qed.
End Loop.

Lemma runAll_unfold (tests : list Test) (cwd : jsstr) (w : world) :
  runAll tests cwd w =
    match runAll_loop tests cwd (behaviours w) (runAll_start w) with
    | (Returned _, s1) => runAll_end w s1
    | (Thrown e, s1) => (Thrown e, s1)
    | (Blocked, s1) => (Blocked, s1)
    end.
Proof.
  unfold runAll, runAll_body, runAll_start, runAll_end.
  unfold M.bind at 1 2 3. unfold log at 1 2 3. unfold M.emit at 1 2 3.
  cbn [M.emits runAll_init v_points v_availablePoints v_failed v_trace app].
  unfold M.bind at 1.
  destruct (runAll_loop tests cwd (behaviours w) _) as [[[]|e|] s1]; try reflexivity.
  destruct s1 as [p a f t].
  unfold M.bind, M.get, log, M.emit, M.emits, M.ret, M.set_points, M.throw.
  cbn [v_points v_availablePoints v_failed v_trace].
  destruct f; cbn [v_points v_availablePoints v_failed v_trace];
    destruct (gt (round p) zero);
    cbn [v_points v_availablePoints v_failed v_trace];
    try destruct (setCheckRunOutput w _);
    repeat rewrite <- app_assoc; rewrite ?app_nil_r; cbn [app]; reflexivity.
Qed.

Lemma add_NaN_l (x : number) : add NaN x = NaN.
Proof. reflexivity. Qed.

Lemma add_NaN_r (x : number) : add x NaN = NaN.
Proof. now destruct x. Qed.

(** As long as no stream of a child fails, an error thrown while one test
    runs (by its setup, by its main command, a timeout, a non-zero exit, a
    failed spawn) is caught by the [try] statement of the loop: the loop
    never throws, the only exception that can leave [runAll] is the one of
    [setCheckRunOutput], and, when the children of every test settle, the
    loop runs every test in order, with a test whose run threw [e] logged as
    failed, [core.setFailed] called with the message of [e], and [failed]
    set. *)
Theorem runAll_catches_test_errors :
  forall (tests : list Test) (cwd : jsstr) (w : world),
    (forall s e, fst (runAll_loop tests cwd (behaviours w) s) <> Thrown e)
    /\ (forall e, fst (runAll tests cwd w) = Thrown e ->
                  exists text, setCheckRunOutput w text = Some e)
    /\ (all_complete tests (behaviours w) = true ->
        forall s, exists s',
          runAll_loop tests cwd (behaviours w) s = (Returned tt, s')
          /\ headers (v_trace s') = headers (v_trace s) ++ map name tests
          /\ forall i test e,
               nth_error tests i = Some test ->
               fst (run test cwd (nth i (behaviours w) silent)) = Thrown e ->
               v_failed s' = true
               /\ In (SetFailed (message e)) (v_trace s')
               /\ In (Log (Failed (name test))) (v_trace s')).
Proof.
  intros tests cwd w. split; [|split].
  - intros s e. apply runAll_loop_never_throws.
  - intros e H. rewrite runAll_unfold in H.
    pose proof (runAll_loop_never_throws cwd tests (behaviours w) (runAll_start w)) as N.
    destruct (runAll_loop tests cwd (behaviours w) (runAll_start w)) as [[[]|e'|] s1];
      cbn [fst] in *.
    + unfold runAll_end in H. destruct (gt _ zero); cbn [fst] in H; [|discriminate].
      match type of H with
      | context [setCheckRunOutput w ?t] =>
          exists t; destruct (setCheckRunOutput w t); [congruence|discriminate]
      end.
    + now contradiction (N e').
    + discriminate.
  - intros C s. exists (loop_store cwd tests (behaviours w) s).
    split; [now apply runAll_loop_complete|].
    split; [apply loop_store_headers|].
    intros i test e Hi Hr.
    apply (loop_store_reaches cwd
             (fun s0 => v_failed s0 = true
                        /\ In (SetFailed (message e)) (v_trace s0)
                        /\ In (Log (Failed (name test))) (v_trace s0))
             tests (behaviours w) s i test); [|exact Hi|].
    + intros t b s0 (F & I1 & I2). cbn [test_store v_failed v_trace].
      repeat split.
      * rewrite F. destruct (fst (run t cwd b)) as [x| |]; try reflexivity.
        now destruct (strict_eq_opt x (points t)).
      * apply in_or_app. now left.
      * apply in_or_app. now left.
    + intros s0. cbn [test_store v_failed v_trace]. unfold test_trace.
      rewrite Hr. repeat split.
      * apply in_or_app. right. right. right. apply in_or_app. right.
        right. right. now left.
      * apply in_or_app. right. right. right. apply in_or_app. right.
        right. now left.
Qed.

Lemma runAll_catches_test_errors_witness :
  exists s',
    runAll_loop three_tests (js "/w") three_behaviours runAll_init
    = (Returned tt, s')
    /\ headers (v_trace s') = [js "echo"; js "second"; js "echo"]
    /\ v_failed s' = true
    /\ In (SetFailed (timeout_message (of_Z 60000))) (v_trace s')
    /\ In (Log (Failed (js "second"))) (v_trace s').
Proof.
  destruct (proj2 (proj2 (runAll_catches_test_errors three_tests (js "/w")
                            (quiet_world three_behaviours)))
              eq_refl runAll_init) as (s' & E & H & K).
  exists s'. split; [exact E|]. split; [exact H|].
  exact (K 1%nat failing_test (TestTimeoutError (timeout_message (of_Z 60000)))
           eq_refl eq_refl).
Defined.

Lemma leading_data_is_data (evs : list event) :
  forallb is_data (leading_data evs) = true.
Proof.
  induction evs as [|ev evs IH]; [reflexivity|]. cbn [leading_data].
  destruct (is_data ev) eqn:E; [|reflexivity]. cbn [forallb]. now rewrite E, IH.
Qed.

Lemma firstn_is_data (k : nat) (evs : list event) :
  forallb is_data evs = true -> forallb is_data (firstn k evs) = true.
Proof.
  revert evs. induction k as [|k IH]; intros evs H; [reflexivity|].
  destruct evs as [|ev evs]; [reflexivity|]. cbn [firstn forallb] in *.
  apply andb_true_iff in H as [He H]. now rewrite He, IH.
Qed.

(** While only stream data has come, [runCommand] is still waiting. *)
Lemma runCommand_data_only_blocked (test : Test) (cwd : jsstr) (timeout : number)
  (datas : list event) :
  forallb is_data datas = true ->
  fst (runCommand test cwd timeout datas) = Blocked.
Proof.
  intros Hd. rewrite runCommand_unfold.
  pose proof (await_data (command_child datas) timeout datas [] wait_init
                (@nil N) Hd eq_refl) as A.
  rewrite app_nil_r in A. rewrite A.
  now destruct (feed (command_child datas) datas []).
Qed.

Lemma awaiting_main_blocked (test : Test) (cwd : jsstr) (b : behaviour) (k : nat) :
  awaiting_main test cwd b = true ->
  fst (run test cwd (cut_run b k)) = Blocked.
Proof.
  unfold awaiting_main, run, Proc.bind. intros H.
  apply andb_true_iff in H as [_ H].
  cbn [cut_run setup_events elapsed run_events].
  destruct (runSetup test cwd (initial_timeout test) (setup_events b))
    as [[[]|e|] tr]; cbn [fst] in *; try discriminate H.
  pose proof (runCommand_data_only_blocked test cwd
                (sub (initial_timeout test) (elapsed_ms (elapsed b)))
                (firstn k (leading_data (run_events b)))
                (firstn_is_data k _ (leading_data_is_data _))) as B.
  destruct (runCommand test cwd _ (firstn k (leading_data (run_events b)))).
  exact B.
Qed.

Lemma runAll_loop_process_no_fault (tests : list Test) (cwd : jsstr)
  (bs : list behaviour) (s : store) :
  runAll_loop_process tests cwd bs [] s = Finished (runAll_loop tests cwd bs s).
Proof.
  revert bs s. induction tests as [|test tests IH]; intros bs s; [reflexivity|].
  cbn [runAll_loop_process runAll_loop hd tl]. unfold M.bind.
  destruct (runAll_test test cwd (hd silent bs) s) as [[[]|e|] s1];
    [apply IH|reflexivity|reflexivity].
Qed.

(** Without a fault the process does what [runAll] does. *)
Lemma runAll_process_no_fault (tests : list Test) (cwd : jsstr) (w : world) :
  runAll_process tests cwd w [] = Finished (runAll tests cwd w).
Proof.
  unfold runAll_process. rewrite runAll_loop_process_no_fault, runAll_unfold.
  now destruct (runAll_loop tests cwd (behaviours w) (runAll_start w))
    as [[[]|e|] s1].
Qed.

(** C3 fails on the code.  The errors that reject an awaited promise are
    caught by the [try] statement, and the [error] event of the child is one
    of them (lines 84-89), but [child.stdin] has no [error] listener: when
    the stream of a test with input fails while its main command is awaited,
    the error is thrown outside the [try] statement and kills the process.
    The test is not logged as failed, [core.setFailed] is not called,
    [failed] is not set, and no later test starts. *)
Theorem stdin_error_kills_runAll :
  forall (test : Test) (tests : list Test) (cwd : jsstr) (w : world)
         (f : stdin_fault) (faults : list (option stdin_fault))
         (b : behaviour) (bs : list behaviour),
    behaviours w = b :: bs ->
    awaiting_main test cwd b = true ->
    exists s,
      runAll_process (test :: tests) cwd w (Some f :: faults)
      = Killed (fault_error f) s
      /\ headers (v_trace s) = [name test]
      /\ v_failed s = false
      /\ (forall m, ~ In (SetFailed m) (v_trace s))
      /\ (forall n, ~ In (Log (Failed n)) (v_trace s)).
Proof.
  intros test tests cwd w f faults b bs Hb Ha.
  pose proof (awaiting_main_blocked test cwd b (after_events f) Ha) as Hr.
  unfold runAll_process. rewrite Hb. cbn [runAll_loop_process hd]. rewrite Ha.
  rewrite runAll_test_closed. cbn [snd].
  eexists. split; [reflexivity|].
  cbn [test_store v_trace v_failed]. rewrite Hr.
  assert (forall e,
            In e (v_trace (runAll_start w)
                  ++ test_trace test cwd (cut_run b (after_events f))) ->
            e = Log Blank \/ e = Log (StopCommands (token w))
            \/ e = Log (Header (name test)) \/ exists pe, e = Child pe) as Only.
  { intros e H. apply in_app_or in H as [H|H].
    - cbn in H. intuition.
    - unfold test_trace in H. rewrite Hr, app_nil_r in H.
      destruct H as [<-|[<-|H]]; [tauto|tauto|].
      apply in_map_iff in H as (pe & <- & _). right. right. right. now exists pe. }
  split; [|split; [reflexivity|split]].
  - rewrite headers_app, headers_test_trace. reflexivity.
  - intros m H. apply Only in H as [H|[H|[H|(pe & H)]]]; discriminate H.
  - intros n H. apply Only in H as [H|[H|[H|(pe & H)]]]; discriminate H.
Qed.

Lemma stdin_error_kills_runAll_witness :
  exists s,
    runAll_process (stdin_test :: [echo_test]) (js "/w")
      (quiet_world [closed_stdin_behaviour; echo_behaviour]) (Some epipe :: [])
    = Killed (SpawnError [Text "write EPIPE"]) s
    /\ headers (v_trace s) = [js "reads"]
    /\ v_failed s = false
    /\ (forall m, ~ In (SetFailed m) (v_trace s))
    /\ (forall n, ~ In (Log (Failed n)) (v_trace s)).
Proof.
  exact (stdin_error_kills_runAll stdin_test [echo_test] (js "/w")
           (quiet_world [closed_stdin_behaviour; echo_behaviour]) epipe []
           closed_stdin_behaviour [echo_behaviour] eq_refl eq_refl).
Defined.

(** With the same two tests and no failure of the stream, both tests run. *)
Example both_tests_run_without_fault :
  exists r s,
    runAll_process (stdin_test :: [echo_test]) (js "/w")
      (quiet_world [closed_stdin_behaviour; echo_behaviour]) []
    = Finished (r, s)
    /\ headers (v_trace s) = [js "reads"; js "echo"].
Proof.
  rewrite runAll_process_no_fault.
  destruct (runAll _ _ _) as [r s] eqn:E. exists r, s. split; [reflexivity|].
  assert (s = snd (runAll (stdin_test :: [echo_test]) (js "/w")
                     (quiet_world [closed_stdin_behaviour; echo_behaviour])))
    as -> by now rewrite E.
  vm_compute. reflexivity.
Qed.

(** C9. A test that declares no [points] never passes the comparison
    [test_result === test.points], not even with a score of 0: when the
    children of every test settle, the loop logs such a test as failed and
    ends with [failed] set, and [runAll] does not log that all tests
    passed. *)
Theorem undeclared_points_fail :
  forall (tests : list Test) (cwd : jsstr) (w : world) (i : nat) (test : Test),
    all_complete tests (behaviours w) = true ->
    nth_error tests i = Some test ->
    points test = None ->
    (forall x, strict_eq_opt x (points test) = false)
    /\ strict_eq_opt zero (points test) = false
    /\ (forall s, exists s',
          runAll_loop tests cwd (behaviours w) s = (Returned tt, s')
          /\ v_failed s' = true
          /\ In (Log (Failed (name test))) (v_trace s'))
    /\ ~ In (Log AllTestsPassed) (v_trace (snd (runAll tests cwd w))).
Proof.
  intros tests cwd w i test C Hi Hp.
  assert (forall x, strict_eq_opt x (points test) = false) as Hneq.
  { intros x. now rewrite Hp. }
  assert (forall s,
            v_failed (loop_store cwd tests (behaviours w) s) = true
            /\ In (Log (Failed (name test)))
                  (v_trace (loop_store cwd tests (behaviours w) s))) as Hloop.
  { intros s.
    apply (loop_store_reaches cwd
             (fun s0 => v_failed s0 = true
                        /\ In (Log (Failed (name test))) (v_trace s0))
             tests (behaviours w) s i test); [|exact Hi|].
    - intros t b s0 (F & I1). cbn [test_store v_failed v_trace]. split.
      + rewrite F. destruct (fst (run t cwd b)) as [x| |]; try reflexivity.
        now destruct (strict_eq_opt x (points t)).
      + apply in_or_app. now left.
    - intros s0. cbn [test_store v_failed v_trace]. unfold test_trace.
      destruct (fst (run test cwd (nth i (behaviours w) silent))) as [x|e|] eqn:R.
      + rewrite Hneq. split; [reflexivity|].
        apply in_or_app. right. right. right. apply in_or_app. right.
        right. now left.
      + split; [reflexivity|].
        apply in_or_app. right. right. right. apply in_or_app. right.
        right. now left.
      + exfalso. revert R. apply run_not_blocked.
        clear - C Hi. revert i Hi C. generalize (behaviours w) as bs.
        induction tests as [|t ts IH]; intros bs i Hi C; [now destruct i|].
        simpl in C. apply andb_true_iff in C as [C1 C2].
        destruct i as [|i]; simpl in Hi.
        * inversion Hi; subst t. now destruct bs.
        * replace (nth (S i) bs silent) with (nth i (tl bs) silent).
          -- now apply (IH (tl bs)).
          -- destruct bs; [now destruct i|reflexivity]. }
  split; [exact Hneq|]. split; [apply Hneq|]. split.
  - intros s. exists (loop_store cwd tests (behaviours w) s).
    split; [now apply runAll_loop_complete|]. apply Hloop.
  - rewrite runAll_unfold, (runAll_loop_complete cwd tests _ _ C).
    destruct (Hloop (runAll_start w)) as [F _].
    unfold runAll_end. rewrite F.
    assert (~ In (Log AllTestsPassed)
              (v_trace (loop_store cwd tests (behaviours w) (runAll_start w)))) as N.
    { intros H. apply loop_trace_origin in H as [H|H]; [|discriminate].
      simpl in H. intuition discriminate. }
    destruct (gt _ zero); cbn [snd v_trace]; intros H;
      apply in_app_or in H as [H|H]; try (now apply N);
      simpl in H; intuition discriminate.
Qed.

Lemma undeclared_points_fail_witness :
  ~ In (Log AllTestsPassed)
      (v_trace (snd (runAll [ungraded_test] (js "/w")
                       (quiet_world [ungraded_behaviour])))).
Proof.
  apply (undeclared_points_fail [ungraded_test] (js "/w")
           (quiet_world [ungraded_behaviour]) 0 ungraded_test
           eq_refl eq_refl eq_refl).
Defined.

(** C10. The pattern accepts an empty numeric part.  For a buffer that ends
    in the marker [[overall score: ]] and white space, the match succeeds
    with an empty capture, [parseFloat] of it is [NaN], and [runCommand]
    returns [NaN], not 0.  Once the run of one test has returned [NaN], the
    total is [NaN] after the loop and after rounding, the test on
    [points > 0] fails, and [runAll] returns without logging the points,
    setting the output or calling [setCheckRunOutput]. *)
Theorem empty_score_is_NaN :
  (forall (test : Test) (cwd : jsstr) (timeout : number)
          (datas rest : list event) (signal : option jsstr) (pre ws : jsstr),
      forallb is_data datas = true ->
      stdout_text datas = pre ++ js "[overall score: ]" ++ ws ->
      forallb is_space ws = true ->
      Regex.exec regexp (stdout_text datas) = Some (Some [])
      /\ parseFloat [] = NaN
      /\ fst (runCommand test cwd timeout
                (datas ++ ChildExit (Some 0%Z) signal :: rest))
         = Returned NaN)
  /\ (forall (tests : list Test) (cwd : jsstr) (w : world) (i : nat) (test : Test),
        all_complete tests (behaviours w) = true ->
        nth_error tests i = Some test ->
        fst (run test cwd (nth i (behaviours w) silent)) = Returned NaN ->
        exists s',
          runAll tests cwd w = (Returned tt, s')
          /\ v_points s' = NaN
          /\ round NaN = NaN
          /\ gt (v_points s') zero = false
          /\ forall e, In e (v_trace s') -> reports_points e = false).
Proof.
  split.
  - intros test cwd timeout datas rest signal pre ws Hd E Hw.
    assert (marker_at_end (stdout_text datas) []) as M.
    { exists pre, ws. rewrite E. repeat split. exact Hw. }
    split; [|split].
    + destruct (Regex.exec regexp (stdout_text datas)) as [r|] eqn:X.
      * apply exec_regexp_sound in X as (n & -> & M').
        now rewrite (marker_at_end_unique _ _ _ M' M).
      * now apply exec_regexp_complete in M.
    + reflexivity.
    + rewrite runCommand_exit_zero by exact Hd. cbn [fst].
      now rewrite (extract_score_marker _ _ M).
  - intros tests cwd w i test C Hi Hr.
    assert (v_points (loop_store cwd tests (behaviours w) (runAll_start w)) = NaN) as P.
    { apply (loop_store_reaches cwd (fun s0 => v_points s0 = NaN)
               tests (behaviours w) (runAll_start w) i test); [|exact Hi|].
      - intros t b s0 H. cbn [test_store v_points]. rewrite H.
        now destruct (fst (run t cwd b)).
      - intros s0. cbn [test_store v_points]. rewrite Hr. apply add_NaN_r. }
    rewrite runAll_unfold, (runAll_loop_complete cwd tests _ _ C).
    unfold runAll_end. rewrite P. cbn [round gt].
    eexists. split; [reflexivity|]. cbn [v_points v_trace].
    repeat split.
    intros e H. apply in_app_or in H as [H|H].
    + apply loop_trace_origin in H as [H|H].
      * simpl in H. destruct H as [<-|[<-|[<-|[]]]]; reflexivity.
      * destruct e as [pe|l|m|k v|t]; try destruct l; try discriminate; reflexivity.
    + destruct (v_failed _); simpl in H;
        repeat (destruct H as [<-|H]; [reflexivity|]); contradiction.
Qed.

Lemma empty_score_is_NaN_witness :
  fst (runCommand scored_test (js "/w") (of_Z 60000)
         ([StdoutData (js "[overall score: ]" ++ nl)]
            ++ ChildExit (Some 0%Z) None :: []))
  = Returned NaN
  /\ exists s',
       runAll [echo_test; scored_test] (js "/w")
         (quiet_world [echo_behaviour; empty_marker_behaviour])
       = (Returned tt, s')
       /\ v_points s' = NaN.
Proof.
  split.
  - apply (proj1 empty_score_is_NaN scored_test (js "/w") (of_Z 60000)
             [StdoutData (js "[overall score: ]" ++ nl)] [] None [] nl
             eq_refl eq_refl eq_refl).
  - destruct (proj2 empty_score_is_NaN [echo_test; scored_test] (js "/w")
                (quiet_world [echo_behaviour; empty_marker_behaviour])
                1%nat scored_test eq_refl eq_refl eq_refl)
      as (s' & E & P & _).
    exists s'. split; [exact E|exact P].
Defined.

(** * Further properties *)

(** ** indent *)

Lemma lf_to_indented_app (a b : jsstr) :
  lf_to_indented (a ++ b) = lf_to_indented a ++ lf_to_indented b.
Proof.
  induction a as [|c a IH]; simpl; [reflexivity|].
  destruct (c =? 10)%N; simpl; now rewrite IH.
Qed.

Lemma crlf_to_lf_cons2 (c d : N) (s : jsstr) :
  crlf_to_lf (c :: d :: s) =
    if ((c =? 13) && (d =? 10))%N then 10%N :: crlf_to_lf s
    else c :: crlf_to_lf (d :: s).
Proof. reflexivity. Qed.

Lemma crlf_to_lf_app_bounded (n : nat) (a b : jsstr) :
  (List.length a <= n)%nat ->
  splits_crlf a b = false ->
  crlf_to_lf (a ++ b) = crlf_to_lf a ++ crlf_to_lf b.
Proof.
  revert a. induction n as [|n IH]; intros a Hl Hs.
  - destruct a; [reflexivity|simpl in Hl; lia].
  - destruct a as [|c [|d a]].
    + reflexivity.
    + unfold splits_crlf in Hs. cbn [last app] in *.
      destruct b as [|e b]; [reflexivity|]. cbn [hd] in Hs.
      cbn [crlf_to_lf app]. rewrite Hs. reflexivity.
    + change ((c :: d :: a) ++ b) with (c :: d :: (a ++ b)).
      rewrite !crlf_to_lf_cons2. destruct ((c =? 13) && (d =? 10))%N eqn:P.
      * change ((10%N :: crlf_to_lf a) ++ crlf_to_lf b)
          with (10%N :: (crlf_to_lf a ++ crlf_to_lf b)).
        f_equal. apply IH; [simpl in Hl; lia|].
        unfold splits_crlf in *. destruct a as [|x a]; [|exact Hs].
        cbn [last] in *. apply andb_true_iff in P as [_ P].
        apply N.eqb_eq in P. subst d. reflexivity.
      * change ((c :: crlf_to_lf (d :: a)) ++ crlf_to_lf b)
          with (c :: (crlf_to_lf (d :: a) ++ crlf_to_lf b)).
        f_equal. apply (IH (d :: a)); [cbn [List.length] in *; lia|].
        exact Hs.
Qed.

(** X1. [indent] works chunk by chunk: the indentation of two chunks put
    together is the two indentations put together, unless a carriage return
    that ends the first chunk meets a line feed that starts the second. *)
Theorem indent_app :
  forall a b : jsstr,
    splits_crlf a b = false -> indent (a ++ b) = indent a ++ indent b.
Proof.
  intros a b H. unfold indent.
  rewrite (crlf_to_lf_app_bounded (List.length a) a b (le_n _) H).
  apply lf_to_indented_app.
Qed.

Lemma indent_app_witness :
  indent ((js "ab" ++ nl) ++ js "cd") = indent (js "ab" ++ nl) ++ indent (js "cd").
Proof.
  apply (indent_app (js "ab" ++ nl) (js "cd")). reflexivity.
Defined.

(** X2. In what [indent] returns every line feed is followed by two spaces,
    and a text without a line feed is returned as it is. *)
Theorem indent_line_feeds :
  forall text : jsstr,
    lf_spaced (indent text) = true
    /\ (forallb (fun c => negb (c =? 10)%N) text = true -> indent text = text).
Proof.
  intros text. split.
  - unfold indent. generalize (crlf_to_lf text) as t.
    induction t as [|c t IH]; [reflexivity|]. simpl.
    destruct (c =? 10)%N eqn:E; simpl; [exact IH|]. rewrite E. exact IH.
  - intros H. unfold indent.
    assert (crlf_to_lf text = text) as ->.
    { induction text as [|c text IH]; [reflexivity|].
      simpl in H. apply andb_true_iff in H as [_ H].
      cbn [crlf_to_lf]. destruct text as [|d text]; [reflexivity|].
      rewrite (IH H). simpl in H. apply andb_true_iff in H as [Hd _].
      apply negb_true_iff in Hd. rewrite Hd, andb_false_r. reflexivity. }
    induction text as [|c text IH]; [reflexivity|].
    simpl in *. apply andb_true_iff in H as [Hc H].
    apply negb_true_iff in Hc. rewrite Hc, (IH H). reflexivity.
Qed.

Lemma indent_line_feeds_witness : indent (js "plain text") = js "plain text".
Proof.
  apply (indent_line_feeds (js "plain text")). reflexivity.
Defined.

(** ** Score extraction *)

Lemma marker_at_end_more_space (output num ws : jsstr) :
  forallb is_space ws = true ->
  marker_at_end output num -> marker_at_end (output ++ ws) num.
Proof.
  intros Hw (pre & ws' & -> & Hn & Hw'). exists pre, (ws' ++ ws).
  rewrite forallb_app, Hn, Hw', Hw. repeat split.
  rewrite <- !app_assoc. reflexivity.
Qed.

Lemma marker_at_end_less_space (output num ws : jsstr) :
  forallb is_space ws = true ->
  marker_at_end (output ++ ws) num -> marker_at_end output num.
Proof.
  intros Hw (pre & ws' & E & Hn & Hw').
  assert (output ++ ws = (pre ++ marker_open ++ num ++ [93%N]) ++ ws') as E'.
  { rewrite E, <- !app_assoc. reflexivity. }
  apply app_eq_app in E' as (l & [[A B]|[A B]]).
  - exists pre, l. rewrite B, forallb_app in Hw'.
    apply andb_true_iff in Hw' as [Hl _]. repeat split; try assumption.
    rewrite A, <- !app_assoc. reflexivity.
  - destruct l as [|y l'].
    + exists pre, []. rewrite app_nil_r in A. repeat split; try assumption.
      rewrite <- A. reflexivity.
    + exfalso. destruct (exists_last (l := y :: l')) as (l0 & x & El);
        [discriminate|].
      rewrite El in A, B.
      assert ((pre ++ marker_open ++ num) ++ [93%N] = (output ++ l0) ++ [x]) as A'.
      { rewrite <- !app_assoc. exact A. }
      apply app_inj_tail in A' as [_ <-].
      rewrite B, !forallb_app in Hw.
      apply andb_true_iff in Hw as [Hw _]. apply andb_true_iff in Hw as [_ Hw].
      vm_compute in Hw. discriminate Hw.
Qed.

(** X3. White space added at the end of the buffer does not change the
    score extracted from it. *)
Theorem extract_score_trailing_space :
  forall output ws : jsstr,
    forallb is_space ws = true ->
    extract_score (output ++ ws) = extract_score output.
Proof.
  intros output ws Hw.
  destruct (Regex.exec regexp output) as [r|] eqn:E.
  - apply exec_regexp_sound in E as (num & _ & M).
    rewrite (extract_score_marker _ _ M).
    apply extract_score_marker. now apply marker_at_end_more_space.
  - pose proof (no_marker_by_exec _ E) as N.
    rewrite (extract_score_no_marker _ N).
    apply extract_score_no_marker. intros num M.
    apply (N num). now apply (marker_at_end_less_space output num ws).
Qed.

Lemma extract_score_trailing_space_witness :
  extract_score (js "[overall score: 3]" ++ crlf_space)
  = extract_score (js "[overall score: 3]").
Proof.
  apply (extract_score_trailing_space (js "[overall score: 3]") crlf_space).
  reflexivity.
Defined.

Lemma digits_value_nonneg (ds : jsstr) (acc : Z) :
  forallb is_digit ds = true -> (0 <= acc)%Z -> (0 <= digits_value acc ds)%Z.
Proof.
  revert acc. induction ds as [|d ds IH]; intros acc H Ha; cbn [digits_value];
    [exact Ha|].
  simpl in H. apply andb_true_iff in H as [Hd H]. apply IH; [exact H|].
  unfold is_digit in Hd. apply andb_true_iff in Hd as [Hd _].
  apply N.leb_le in Hd. lia.
Qed.

Lemma decimal_nonneg (int_part frac_part : jsstr) :
  forallb is_digit int_part = true -> forallb is_digit frac_part = true ->
  exists q, decimal int_part frac_part = Num q /\ 0 <= q.
Proof.
  intros Hi Hf. unfold decimal. eexists. split; [reflexivity|].
  rewrite Qred_correct. unfold Qle. cbn [Qnum Qden].
  rewrite Z.mul_0_l, Z.mul_1_r.
  apply digits_value_nonneg; [|lia]. now rewrite forallb_app, Hi, Hf.
Qed.

Lemma parseFloat_nonneg (s : jsstr) :
  parseFloat s = NaN \/ exists q, parseFloat s = Num q /\ 0 <= q.
Proof.
  unfold parseFloat.
  destruct (span_spec is_digit s) as (Hi & _ & _).
  destruct (span is_digit s) as [int_part rest]. cbn [fst snd] in Hi.
  assert (forall frac, forallb is_digit frac = true ->
            decimal int_part frac = NaN
            \/ exists q, decimal int_part frac = Num q /\ 0 <= q) as D.
  { intros frac Hf. right. now apply decimal_nonneg. }
  destruct rest as [|c rest'].
  - destruct int_part; [now left|]. now apply D.
  - destruct c as [|p]; [destruct int_part; [now left|now apply D]|].
    assert (forall frac, forallb is_digit frac = true ->
              match int_part, frac with
              | [], [] => NaN
              | _, _ => decimal int_part frac
              end = NaN
              \/ exists q, match int_part, frac with
                           | [], [] => NaN
                           | _, _ => decimal int_part frac
                           end = Num q /\ 0 <= q) as D2.
    { intros frac Hf. destruct int_part; [destruct frac; [now left|]|]; now apply D. }
    destruct (span_spec is_digit rest') as (Hf & _ & _).
    destruct (span is_digit rest') as [frac_part rest2]. cbn [fst snd] in Hf.
    repeat (destruct p as [p|p|];
            try (destruct int_part; [now left|now apply D]));
      now apply D2.
Qed.

Lemma extract_score_sign (output : jsstr) :
  extract_score output = NaN
  \/ exists q, extract_score output = Num q /\ 0 <= q.
Proof.
  unfold extract_score.
  destruct (Regex.exec regexp output) as [[m1|]|].
  - apply parseFloat_nonneg.
  - now left.
  - right. exists 0. split; [reflexivity|]. apply Qle_refl.
Qed.

(** X4. The score extracted from a buffer is never negative: it is [NaN]
    or a number that is at least 0. *)
Theorem extract_score_nonneg :
  forall output : jsstr,
    extract_score output = NaN
    \/ exists q, extract_score output = Num q /\ 0 <= q.
Proof.
  exact extract_score_sign.
Qed.

(** X5. With a marker at the end of the buffer, the score is [NaN]
    exactly when the numeric part of the marker starts neither with a digit
    nor with a dot and a digit. *)
Theorem extract_score_NaN_iff :
  forall output num : jsstr,
    marker_at_end output num ->
    (extract_score output = NaN <-> starts_number num = false).
Proof.
  intros output num M. rewrite (extract_score_marker _ _ M). clear M output.
  unfold parseFloat, starts_number.
  destruct num as [|d r]; [now split|].
  cbn [span]. destruct (is_digit d) eqn:Hd.
  - destruct (span is_digit r) as [a b]. cbn [orb].
    split; [|discriminate]. intros H. exfalso.
    destruct b as [|c b]; [discriminate H|].
    destruct (span is_digit b) as [f g].
    unfold decimal in H. destruct c as [|p]; [discriminate H|].
    repeat (destruct p as [p|p|]; try discriminate H).
  - cbn [orb]. destruct (N.eqb_spec d 46) as [->|Hne].
    + cbn [andb]. destruct r as [|e r']; [now split|].
      cbn [span]. destruct (is_digit e).
      * destruct (span is_digit r'). split; discriminate.
      * now split.
    + cbn [andb]. split; [reflexivity|]. intros _.
      destruct d as [|p]; [reflexivity|].
      repeat (destruct p as [p|p|]; try reflexivity). now contradiction Hne.
Qed.

Lemma extract_score_NaN_iff_witness :
  extract_score (js "[overall score: .]" ++ nl) = NaN <-> starts_number (js ".") = false.
Proof.
  apply (extract_score_NaN_iff (js "[overall score: .]" ++ nl) (js ".")).
  exists [], nl. repeat split.
Defined.

(** ** The closure of waitForExit *)

Lemma tame_command_child (evs : list event) : tame (command_child evs).
Proof. intros chunk l. split; reflexivity. Qed.

Lemma tame_setup_child (evs : list event) : tame (setup_child evs).
Proof. intros chunk l. split; reflexivity. Qed.

Lemma is_write_not_kill (tr : list proc_effect) :
  forallb is_write tr = true -> filter is_kill tr = [].
Proof.
  induction tr as [|e tr IH]; [reflexivity|]. simpl. intros H.
  apply andb_true_iff in H as [He H]. destruct e; try discriminate; now apply IH.
Qed.

Section Closure.
Context {L : Type}.
Variable c : child L.
Variable timeout : number.

Lemma deliver_settled (ev : event) (w : wait_state) (l : L) :
  settled w <> Pending ->
  settled (fst (fst (deliver c timeout ev w l))) = settled w.
Proof.
  intros H. destruct ev as [ch|ch| |cd sg|err]; simpl.
  - now destruct (stdout_on_data c ch l).
  - now destruct (stderr_on_data c ch l).
  - unfold on_timer. destruct (timer_armed w); [|reflexivity]. simpl.
    destruct (settled w); [contradiction| |]; reflexivity.
  - unfold on_exit. destruct (exit_listener w); [|reflexivity].
    destruct (timedOut w); [reflexivity|]. simpl.
    destruct (settled w); [contradiction| |]; now destruct cd as [[|p|p]|].
  - unfold on_error. destruct (error_listener w); [|reflexivity].
    destruct (timedOut w); [reflexivity|]. simpl.
    destruct (settled w); [contradiction| |]; reflexivity.
Qed.

Lemma wait_after_cons (ev : event) (evs : list event) (w : wait_state) (l : L) :
  wait_after c timeout (ev :: evs) w l =
    wait_after c timeout evs (fst (fst (deliver c timeout ev w l)))
      (snd (fst (deliver c timeout ev w l))).
Proof.
  unfold wait_after. simpl.
  destruct (deliver c timeout ev w l) as [[w1 l1] tr1]. simpl.
  now destruct (deliver_all c timeout evs w1 l1) as [[w2 l2] tr2].
Qed.

Lemma trace_after_cons (ev : event) (evs : list event) (w : wait_state) (l : L) :
  trace_after c timeout (ev :: evs) w l =
    snd (deliver c timeout ev w l)
    ++ trace_after c timeout evs (fst (fst (deliver c timeout ev w l)))
         (snd (fst (deliver c timeout ev w l))).
Proof.
  unfold trace_after. simpl.
  destruct (deliver c timeout ev w l) as [[w1 l1] tr1]. simpl.
  now destruct (deliver_all c timeout evs w1 l1) as [[w2 l2] tr2].
Qed.

(** The three parts of the invariant of [deliver_kills], by the hypotheses
    on the state before. *)
Ltac kills_case A1 A2 :=
  split;
  [ split;
    [ intros H; try discriminate H; try congruence;
      try (destruct (A1 H) as [? ?]; split; congruence)
    | intros H; try discriminate H; try reflexivity;
      try (apply A2; congruence) ]
  | split;
    [ intros H; try reflexivity; try congruence
    | try reflexivity ] ].

Lemma deliver_kills (ev : event) (w : wait_state) (l : L) :
  tame c ->
  armed_ok timeout w ->
  let w1 := fst (fst (deliver c timeout ev w l)) in
  armed_ok timeout w1
  /\ (timedOut w = true -> timedOut w1 = true)
  /\ List.length (filter is_kill (snd (deliver c timeout ev w l)))
     = (if negb (timedOut w) && timedOut w1 then 1 else 0)%nat.
Proof.
  intros T [A1 A2]. destruct ev as [ch|ch| |cd sg|err]; simpl.
  - destruct (T ch l) as [T1 _].
    destruct (stdout_on_data c ch l) as [l1 tr1]. simpl in *.
    rewrite (is_write_not_kill _ T1). kills_case A1 A2.
    now destruct (timedOut w).
  - destruct (T ch l) as [_ T2].
    destruct (stderr_on_data c ch l) as [l1 tr1]. simpl in *.
    rewrite (is_write_not_kill _ T2). kills_case A1 A2.
    now destruct (timedOut w).
  - unfold on_timer. destruct (timer_armed w) eqn:Ta; simpl.
    + destruct (A1 eq_refl) as [P F]. rewrite P, F. simpl. kills_case A1 A2.
    + kills_case A1 A2. now destruct (timedOut w).
  - unfold on_exit. destruct (exit_listener w); simpl.
    + destruct (timedOut w) eqn:Tw; simpl; kills_case A1 A2.
    + kills_case A1 A2. now destruct (timedOut w).
  - unfold on_error. destruct (error_listener w); simpl.
    + destruct (timedOut w) eqn:Tw; simpl; kills_case A1 A2.
    + kills_case A1 A2. now destruct (timedOut w).
Qed.

Lemma deliver_all_kills (evs : list event) (w : wait_state) (l : L) :
  tame c ->
  armed_ok timeout w ->
  armed_ok timeout (wait_after c timeout evs w l)
  /\ (timedOut w = true -> timedOut (wait_after c timeout evs w l) = true)
  /\ List.length (filter is_kill (trace_after c timeout evs w l))
     = (if negb (timedOut w) && timedOut (wait_after c timeout evs w l)
        then 1 else 0)%nat.
Proof.
  intros T. revert w l. induction evs as [|ev evs IH]; intros w l A.
  - unfold wait_after, trace_after. simpl. repeat split; try apply A; auto.
    now destruct (timedOut w).
  - rewrite wait_after_cons, trace_after_cons.
    destruct (deliver_kills ev w l T A) as (A1 & M1 & K1).
    destruct (IH _ (snd (fst (deliver c timeout ev w l))) A1) as (A2 & M2 & K2).
    split; [exact A2|]. split; [auto|].
    rewrite filter_app, length_app, K1, K2.
    destruct (timedOut w); simpl.
    + rewrite (M1 eq_refl). reflexivity.
    + destruct (timedOut (fst (fst (deliver c timeout ev w l)))) eqn:E; simpl.
      * now rewrite (M2 eq_refl).
      * now destruct (timedOut (wait_after c timeout evs _ _)).
Qed.
End Closure.

Lemma armed_ok_init (timeout : number) : armed_ok timeout wait_init.
Proof.
  split; [now split|discriminate].
Qed.

(** X6. A promise of [waitForExit] settles once: when it is resolved or
    rejected, no event of the child, whichever and however many, changes
    what it was settled with. *)
Theorem promise_settles_once :
  forall (L : Type) (c : child L) (timeout : number) (evs : list event)
         (w : wait_state) (l : L),
    settled w <> Pending ->
    settled (wait_after c timeout evs w l) = settled w.
Proof.
  intros L c timeout evs. induction evs as [|ev evs IH]; intros w l H.
  - reflexivity.
  - rewrite wait_after_cons, IH; [now apply deliver_settled|].
    now rewrite deliver_settled.
Qed.

Lemma promise_settles_once_witness :
  settled
    (wait_after (command_child []) (of_Z 1000)
       [ChildError (SpawnError [Text "late"]); TimerFires; ChildExit (Some 0%Z) None]
       (wait_after (command_child []) (of_Z 1000) [ChildExit (Some 3%Z) None]
          wait_init [])
       [])
  = Rejected (TestError (exit_message (Some 3%Z) None)).
Proof.
  apply (promise_settles_once jsstr (command_child []) (of_Z 1000)
           [ChildError (SpawnError [Text "late"]); TimerFires; ChildExit (Some 0%Z) None]
           (wait_after (command_child []) (of_Z 1000) [ChildExit (Some 3%Z) None]
              wait_init [])
           []).
  discriminate.
Defined.

(** X7. For a child whose [data] listeners only write to the console,
    whatever the events and their order, [kill] is called exactly once if the
    timer callback ran and never otherwise; and if it ran, the promise is
    rejected with the [TestTimeoutError] of this timeout. *)
Theorem kill_iff_timed_out :
  forall (L : Type) (c : child L) (timeout : number) (evs : list event) (l : L),
    tame c ->
    List.length (filter is_kill (trace_after c timeout evs wait_init l))
    = (if timedOut (wait_after c timeout evs wait_init l) then 1 else 0)%nat
    /\ (timedOut (wait_after c timeout evs wait_init l) = true ->
        settled (wait_after c timeout evs wait_init l)
        = Rejected (TestTimeoutError (timeout_message timeout))).
Proof.
  intros L c timeout evs l T.
  destruct (deliver_all_kills c timeout evs wait_init l T (armed_ok_init timeout))
    as ([_ A] & _ & K).
  split; [exact K|exact A].
Qed.

Lemma kill_iff_timed_out_witness :
  List.length
    (filter is_kill
       (trace_after (command_child []) (of_Z 1000)
          [StdoutData (js "a"); TimerFires; TimerFires; ChildExit None None]
          wait_init []))
  = 1%nat.
Proof.
  apply (kill_iff_timed_out jsstr (command_child []) (of_Z 1000)
           [StdoutData (js "a"); TimerFires; TimerFires; ChildExit None None] []).
  intros chunk l. split; reflexivity.
Defined.

Lemma disarmed_stays {L} (c : child L) (timeout : number) (evs : list event)
  (w : wait_state) (l : L) :
  timer_armed w = false -> timedOut w = false ->
  timedOut (wait_after c timeout evs w l) = false.
Proof.
  revert w l. induction evs as [|ev evs IH]; intros w l Ha Ht; [exact Ht|].
  rewrite wait_after_cons. apply IH.
  - destruct ev as [ch|ch| |cd sg|err]; simpl.
    + now destruct (stdout_on_data c ch l).
    + now destruct (stderr_on_data c ch l).
    + unfold on_timer. now rewrite Ha.
    + unfold on_exit. destruct (exit_listener w); [rewrite Ht|]; simpl; auto.
    + unfold on_error. destruct (error_listener w); [rewrite Ht|]; simpl; auto.
  - destruct ev as [ch|ch| |cd sg|err]; simpl.
    + now destruct (stdout_on_data c ch l).
    + now destruct (stderr_on_data c ch l).
    + unfold on_timer. now rewrite Ha.
    + unfold on_exit. destruct (exit_listener w); [rewrite Ht|]; simpl; auto.
    + unfold on_error. destruct (error_listener w); [rewrite Ht|]; simpl; auto.
Qed.

Lemma wait_after_data {L} (c : child L) (timeout : number)
  (datas rest : list event) (w : wait_state) (l : L) :
  forallb is_data datas = true ->
  wait_after c timeout (datas ++ rest) w l
  = wait_after c timeout rest w (fst (feed c datas l)).
Proof.
  intros Hd. unfold wait_after. rewrite (deliver_all_data c timeout datas rest w l Hd).
  destruct (feed c datas l) as [l1 tr1]. cbn [fst].
  now destruct (deliver_all c timeout rest w l1) as [[w2 l2] tr2].
Qed.

(** X8. A child that has exited, or failed to spawn, before the timer
    fired is never killed: whatever events follow, the timer callback does
    not run and [kill] is not called. *)
Theorem exited_child_is_never_killed :
  forall (L : Type) (c : child L) (timeout : number)
         (datas later : list event) (ev : event) (l : L),
    tame c ->
    forallb is_data datas = true ->
    is_end ev = true ->
    timedOut (wait_after c timeout (datas ++ ev :: later) wait_init l) = false
    /\ filter is_kill (trace_after c timeout (datas ++ ev :: later) wait_init l) = [].
Proof.
  intros L c timeout datas later ev l T Hd He.
  assert (timedOut (wait_after c timeout (datas ++ ev :: later) wait_init l) = false)
    as F.
  { rewrite (wait_after_data c timeout datas _ wait_init l Hd), wait_after_cons.
    destruct ev as [ch|ch| |cd sg|err]; try discriminate He;
      apply disarmed_stays; reflexivity. }
  split; [exact F|].
  destruct (deliver_all_kills c timeout (datas ++ ev :: later) wait_init l T
              (armed_ok_init timeout)) as (_ & _ & K).
  rewrite F in K. simpl in K. now apply length_zero_iff_nil.
Qed.

Lemma exited_child_is_never_killed_witness :
  filter is_kill
    (trace_after (setup_child []) (of_Z 1000)
       ([StdoutData (js "ok")] ++ ChildExit (Some 0%Z) None :: [TimerFires; TimerFires])
       wait_init tt)
  = [].
Proof.
  apply (exited_child_is_never_killed unit (setup_child []) (of_Z 1000)
           [StdoutData (js "ok")] [TimerFires; TimerFires]
           (ChildExit (Some 0%Z) None) tt).
  - intros chunk l. split; reflexivity.
  - reflexivity.
  - reflexivity.
Defined.

(** X9. When the child fails to spawn ([error] comes before [exit] and
    before the timer), [runCommand] throws the very error of the event, after
    clearing the timer; what the child does afterwards, an exit with code 0
    included, does not turn the failure into a score. *)
Theorem runCommand_spawn_error :
  forall (test : Test) (cwd : jsstr) (timeout : number)
         (datas rest : list event) (err : error),
    forallb is_data datas = true ->
    runCommand test cwd timeout (datas ++ ChildError err :: rest)
    = (Thrown err,
       Spawn (run_ test) cwd child_env :: StdoutWrite (indent nl)
         :: stdin_trace test ++ SetTimeout timeout
         :: data_trace datas ++ [ClearTimeout]).
Proof.
  intros test cwd timeout datas rest err Hd. rewrite runCommand_unfold.
  rewrite (await_data (command_child _) timeout datas _ wait_init (@nil N) Hd eq_refl).
  rewrite feed_command_child. reflexivity.
Qed.

Lemma runCommand_spawn_error_witness :
  fst (runCommand scored_test (js "/w") (of_Z 1000)
         ([] ++ ChildError (SpawnError [Text "ENOENT"])
             :: [StdoutData (js "[overall score: 5]"); ChildExit (Some 0%Z) None]))
  = Thrown (SpawnError [Text "ENOENT"]).
Proof.
  rewrite (runCommand_spawn_error scored_test (js "/w") (of_Z 1000) []
             [StdoutData (js "[overall score: 5]"); ChildExit (Some 0%Z) None]
             (SpawnError [Text "ENOENT"]) eq_refl).
  reflexivity.
Defined.

Lemma await_command_skips_stderr (e0 e1 evs : list event) (timeout : number)
  (w : wait_state) (l : jsstr) :
  settled w = Pending ->
  fst (await (command_child e0) timeout evs w l)
  = fst (await (command_child e1) timeout (filter not_stderr evs) w l).
Proof.
  revert w l. induction evs as [|ev evs IH]; intros w l Hw; [reflexivity|].
  destruct ev as [ch|ch| |cd sg|err]; cbn [filter not_stderr].
  - cbn [await deliver command_child stdout_on_data]. rewrite Hw.
    specialize (IH w (l ++ ch) Hw).
    destruct (await (command_child e0) timeout evs w (l ++ ch)).
    destruct (await (command_child e1) timeout (filter not_stderr evs) w (l ++ ch)).
    exact IH.
  - cbn [await deliver command_child stderr_on_data]. rewrite Hw.
    specialize (IH w l Hw).
    destruct (await (command_child e0) timeout evs w l). exact IH.
  - cbn [await deliver].
    destruct (on_timer timeout w) as [w1 tr1].
    destruct (settled w1) eqn:S1; try reflexivity.
    specialize (IH w1 l S1).
    destruct (await (command_child e0) timeout evs w1 l).
    destruct (await (command_child e1) timeout (filter not_stderr evs) w1 l).
    exact IH.
  - cbn [await deliver].
    destruct (on_exit cd sg w) as [w1 tr1].
    destruct (settled w1) eqn:S1; try reflexivity.
    specialize (IH w1 l S1).
    destruct (await (command_child e0) timeout evs w1 l).
    destruct (await (command_child e1) timeout (filter not_stderr evs) w1 l).
    exact IH.
  - cbn [await deliver].
    destruct (on_error err w) as [w1 tr1].
    destruct (settled w1) eqn:S1; try reflexivity.
    specialize (IH w1 l S1).
    destruct (await (command_child e0) timeout evs w1 l).
    destruct (await (command_child e1) timeout (filter not_stderr evs) w1 l).
    exact IH.
Qed.

(** X10. The standard error of the main command plays no part in the
    result of [runCommand]: with the chunks of standard error taken out of
    the events, [runCommand] returns the same score, throws the same error,
    or stays blocked alike. *)
Theorem runCommand_ignores_stderr :
  forall (test : Test) (cwd : jsstr) (timeout : number) (evs : list event),
    fst (runCommand test cwd timeout evs)
    = fst (runCommand test cwd timeout (filter not_stderr evs)).
Proof.
  intros test cwd timeout evs. rewrite !runCommand_unfold.
  pose proof (await_command_skips_stderr evs (filter not_stderr evs) evs timeout
                wait_init [] eq_refl) as A.
  destruct (await (command_child evs) timeout evs wait_init []) as [r tr].
  destruct (await (command_child (filter not_stderr evs)) timeout
              (filter not_stderr evs) wait_init []) as [r' tr'].
  cbn [fst] in *. now rewrite A.
Qed.

(** ** The two phases of run *)

Lemma fst_bind {A B} (m : Proc.t A) (f : A -> Proc.t B) :
  fst (Proc.bind m f) =
    match fst m with
    | Returned a => fst (f a)
    | Thrown e => Thrown e
    | Blocked => Blocked
    end.
Proof.
  destruct m as [[a|e|] tr]; simpl; try reflexivity. now destruct (f a).
Qed.

Lemma await_setup_skips_data (e0 e1 evs : list event) (timeout : number)
  (w : wait_state) :
  settled w = Pending ->
  fst (await (setup_child e0) timeout evs w tt)
  = fst (await (setup_child e1) timeout (filter not_data evs) w tt).
Proof.
  revert w. induction evs as [|ev evs IH]; intros w Hw; [reflexivity|].
  destruct ev as [ch|ch| |cd sg|err]; cbn [filter not_data is_data negb].
  - cbn [await deliver setup_child stdout_on_data]. rewrite Hw.
    specialize (IH w Hw).
    destruct (await (setup_child e0) timeout evs w tt). exact IH.
  - cbn [await deliver setup_child stderr_on_data]. rewrite Hw.
    specialize (IH w Hw).
    destruct (await (setup_child e0) timeout evs w tt). exact IH.
  - cbn [await deliver].
    destruct (on_timer timeout w) as [w1 tr1].
    destruct (settled w1) eqn:S1; try reflexivity.
    specialize (IH w1 S1).
    destruct (await (setup_child e0) timeout evs w1 tt).
    destruct (await (setup_child e1) timeout (filter not_data evs) w1 tt).
    exact IH.
  - cbn [await deliver].
    destruct (on_exit cd sg w) as [w1 tr1].
    destruct (settled w1) eqn:S1; try reflexivity.
    specialize (IH w1 S1).
    destruct (await (setup_child e0) timeout evs w1 tt).
    destruct (await (setup_child e1) timeout (filter not_data evs) w1 tt).
    exact IH.
  - cbn [await deliver].
    destruct (on_error err w) as [w1 tr1].
    destruct (settled w1) eqn:S1; try reflexivity.
    specialize (IH w1 S1).
    destruct (await (setup_child e0) timeout evs w1 tt).
    destruct (await (setup_child e1) timeout (filter not_data evs) w1 tt).
    exact IH.
Qed.

Lemma runSetup_skips_data (test : Test) (cwd : jsstr) (timeout : number)
  (evs : list event) :
  fst (runSetup test cwd timeout evs)
  = fst (runSetup test cwd timeout (filter not_data evs)).
Proof.
  unfold runSetup. destruct (no_setup test); [reflexivity|].
  unfold Proc.bind, Proc.emit, waitForExit. cbn [events setup_child].
  pose proof (await_setup_skips_data evs (filter not_data evs) evs timeout
                wait_init eq_refl) as A.
  destruct (await (setup_child evs) timeout evs wait_init tt) as [r tr].
  destruct (await (setup_child (filter not_data evs)) timeout
              (filter not_data evs) wait_init tt) as [r' tr'].
  cbn [fst] in *. subst r'. now destruct r as [[]| |].
Qed.

(** X11. What the setup command prints is never scored and never decides
    anything: two behaviours whose setup children differ only in the stream
    data they emit give [run] the same result. *)
Theorem run_ignores_setup_output :
  forall (test : Test) (cwd : jsstr) (b b' : behaviour),
    filter not_data (setup_events b) = filter not_data (setup_events b') ->
    elapsed b = elapsed b' ->
    run_events b = run_events b' ->
    fst (run test cwd b) = fst (run test cwd b').
Proof.
  intros test cwd b b' Hs He Hr. unfold run. rewrite !fst_bind.
  rewrite (runSetup_skips_data test cwd _ (setup_events b)),
    (runSetup_skips_data test cwd _ (setup_events b')), Hs, He, Hr.
  reflexivity.
Qed.

Lemma run_ignores_setup_output_witness :
  fst (run slow_setup_test (js "/w") slow_setup_behaviour)
  = fst (run slow_setup_test (js "/w")
           {| setup_events :=
                [StdoutData (js "[overall score: 9]" ++ nl); ChildExit (Some 0%Z) None];
              elapsed := elapsed slow_setup_behaviour;
              run_events := run_events slow_setup_behaviour |}).
Proof.
  apply (run_ignores_setup_output slow_setup_test (js "/w") slow_setup_behaviour
           {| setup_events :=
                [StdoutData (js "[overall score: 9]" ++ nl); ChildExit (Some 0%Z) None];
              elapsed := elapsed slow_setup_behaviour;
              run_events := run_events slow_setup_behaviour |});
    reflexivity.
Defined.

Lemma data_trace_no_spawn (evs : list event) :
  filter is_spawn (data_trace evs) = [].
Proof.
  induction evs as [|ev evs IH]; [reflexivity|]. now destruct ev.
Qed.

(** X12. When the setup command fails (its timer fires, it exits with a
    code other than 0, or it fails to spawn), [run] throws the error of the
    setup and the main command is never spawned: the only process spawned is
    the setup command, and nothing is written to a standard input. *)
Theorem setup_failure_skips_main :
  forall (test : Test) (cwd : jsstr) (b : behaviour)
         (datas rest : list event) (ev : event) (e : error),
    no_setup test = false ->
    setup_events b = datas ++ ev :: rest ->
    forallb is_data datas = true ->
    failure_of (initial_timeout test) ev = Some e ->
    fst (run test cwd b) = Thrown e
    /\ filter is_spawn (snd (run test cwd b))
       = [Spawn (setup_command test) cwd child_env]
    /\ filter touches_stdin (snd (run test cwd b)) = [].
Proof.
  intros test cwd b datas rest ev e Hs Hev Hd Hf.
  assert (is_data ev = false) as Hnd.
  { destruct ev; try reflexivity; discriminate Hf. }
  assert (exists last_,
            run test cwd b
            = (Thrown e,
               Spawn (setup_command test) cwd child_env :: StdoutWrite (indent nl)
                 :: SetTimeout (initial_timeout test) :: data_trace datas ++ [last_])
            /\ is_spawn last_ = false /\ touches_stdin last_ = false)
    as (last_ & R & L1 & L2).
  { unfold run, runSetup. rewrite Hs.
    pose proof (waitForExit_first (setup_child (setup_events b))
                  (initial_timeout test) datas rest ev tt Hd Hnd Hev) as W.
    rewrite feed_setup_child in W.
    unfold Proc.bind at 1. unfold Proc.bind at 1. unfold Proc.emit.
    rewrite W. clear W.
    destruct ev as [ch|ch| |cd sg|err]; try discriminate Hf.
    - inversion Hf; subst e. exists Kill. repeat split.
    - exists ClearTimeout.
      destruct cd as [[|p|p]|]; try discriminate Hf; inversion Hf; subst e;
        repeat split.
    - inversion Hf; subst e. exists ClearTimeout. repeat split. }
  rewrite R. cbn [fst snd]. split; [reflexivity|].
  cbn [filter is_spawn touches_stdin].
  rewrite !filter_app, data_trace_no_spawn. cbn [filter]. rewrite L1, L2.
  split; [reflexivity|].
  assert (filter touches_stdin (data_trace datas) = []) as ->; [|reflexivity].
  clear. induction datas as [|d ds IH]; [reflexivity|]. now destruct d.
Qed.

Lemma setup_failure_skips_main_witness :
  fst (run slow_setup_test (js "/w")
         {| setup_events := [StdoutData (js "cc") ; ChildExit (Some 2%Z) None];
            elapsed := (1%N, 0%N);
            run_events := [StdoutData (js "[overall score: 5]"); ChildExit (Some 0%Z) None] |})
  = Thrown (TestError (exit_message (Some 2%Z) None)).
Proof.
  apply (setup_failure_skips_main slow_setup_test (js "/w")
           {| setup_events := [StdoutData (js "cc") ; ChildExit (Some 2%Z) None];
              elapsed := (1%N, 0%N);
              run_events := [StdoutData (js "[overall score: 5]"); ChildExit (Some 0%Z) None] |}
           [StdoutData (js "cc")] [] (ChildExit (Some 2%Z) None)
           (TestError (exit_message (Some 2%Z) None)));
    reflexivity.
Defined.

(** ** The budget *)

Lemma or_else_nonzero (a : option number) (q : Q) :
  ~ q == 0 -> exists r, or_else a (Num q) = Num r /\ ~ r == 0.
Proof.
  intros Hq. destruct a as [[|p]|]; cbn [or_else truthy].
  - now exists q.
  - destruct (Qeq_bool p 0) eqn:E; cbn [negb].
    + now exists q.
    + exists p. split; [reflexivity|]. intros H.
      apply Qeq_bool_iff in H. congruence.
  - now exists q.
Qed.

Lemma budget_product_nonzero (test : Test) :
  exists v,
    mul (mul (or_else (timeout test) (of_Z 1)) (of_Z 60)) (of_Z 1000) = Num v
    /\ ~ v == 0.
Proof.
  destruct (or_else_nonzero (timeout test) (inject_Z 1)) as (r & E & Hr);
    [discriminate|].
  unfold of_Z at 1. rewrite E. cbn [mul of_Z].
  eexists. split; [reflexivity|].
  rewrite !Qred_correct. intros Z0. apply Hr.
  unfold Qeq, Qmult, inject_Z in *. cbn [Qnum Qden] in *. lia.
Qed.

Lemma truthy_nonzero (v : Q) : ~ v == 0 -> truthy (Num v) = true.
Proof.
  intros H. cbn [truthy]. destruct (Qeq_bool v 0) eqn:Q; [|reflexivity].
  now apply Qeq_bool_iff in Q.
Qed.

Lemma initial_timeout_Num (test : Test) :
  exists q, initial_timeout test = Num q /\ ~ q == 0.
Proof.
  destruct (budget_product_nonzero test) as (v & E & Hv).
  exists v. split; [|exact Hv].
  unfold initial_timeout. rewrite E. cbn [or_else].
  now rewrite (truthy_nonzero v Hv).
Qed.

(** X13. The budget [run] starts from is always a number other than 0,
    never [NaN], whatever the declared timeout is (absent, 0 and [NaN]
    included): the fallback to 30000 of the expression is never taken, and
    the budget is the first operand, [(test.timeout || 1) * 60 * 1000]. *)
Theorem initial_timeout_never_falls_back :
  forall test : Test,
    truthy (initial_timeout test) = true
    /\ initial_timeout test
       = mul (mul (or_else (timeout test) (of_Z 1)) (of_Z 60)) (of_Z 1000).
Proof.
  intros test. destruct (budget_product_nonzero test) as (v & E & Hv).
  unfold initial_timeout. rewrite E. cbn [or_else].
  rewrite (truthy_nonzero v Hv). split; [exact (truthy_nonzero v Hv)|reflexivity].
Qed.

Section AwaitEffects.
Context {L : Type}.
Variable c : child L.
Variable timeout : number.
Variable P : proc_effect -> bool.
Hypothesis P_write : forall e, is_write e = true -> P e = true.
Hypothesis P_kill : P Kill = true.
Hypothesis P_clear : P ClearTimeout = true.
Hypothesis c_tame : tame c.

Lemma forallb_write_P (tr : list proc_effect) :
  forallb is_write tr = true -> forallb P tr = true.
Proof.
  induction tr as [|e tr IH]; [reflexivity|]. simpl. intros H.
  apply andb_true_iff in H as [He H]. now rewrite (P_write e He), IH.
Qed.

Lemma deliver_effects (ev : event) (w : wait_state) (l : L) :
  forallb P (snd (deliver c timeout ev w l)) = true.
Proof.
  destruct ev as [ch|ch| |cd sg|err]; simpl.
  - destruct (c_tame ch l) as [T _].
    destruct (stdout_on_data c ch l). now apply forallb_write_P.
  - destruct (c_tame ch l) as [_ T].
    destruct (stderr_on_data c ch l). now apply forallb_write_P.
  - unfold on_timer. destruct (timer_armed w); simpl; now rewrite ?P_kill.
  - unfold on_exit. destruct (exit_listener w); [destruct (timedOut w)|];
      simpl; now rewrite ?P_clear.
  - unfold on_error. destruct (error_listener w); [destruct (timedOut w)|];
      simpl; now rewrite ?P_clear.
Qed.

Lemma await_effects (evs : list event) (w : wait_state) (l : L) :
  forallb P (snd (await c timeout evs w l)) = true.
Proof.
  revert w l. induction evs as [|ev evs IH]; intros w l; [reflexivity|].
  cbn [await]. pose proof (deliver_effects ev w l) as D.
  destruct (deliver c timeout ev w l) as [[w1 l1] tr1]. cbn [snd] in D.
  destruct (settled w1); try exact D.
  specialize (IH w1 l1). destruct (await c timeout evs w1 l1) as [r tr2].
  cbn [snd] in *. now rewrite forallb_app, D, IH.
Qed.
End AwaitEffects.

Lemma run_set_timeouts (test : Test) (cwd : jsstr) (b : behaviour) (t : number) :
  In (SetTimeout t) (snd (run test cwd b)) ->
  t = initial_timeout test
  \/ t = sub (initial_timeout test) (elapsed_ms (elapsed b)).
Proof.
  set (P := fun e => negb (is_set_timeout e)).
  assert (forall L (c : child L) timeout evs w l,
            tame c -> ~ In (SetTimeout t) (snd (await c timeout evs w l))) as NA.
  { intros L c timeout evs w l T H.
    pose proof (await_effects c timeout P (fun e => ltac:(now destruct e))
                  eq_refl eq_refl T evs w l) as F.
    rewrite forallb_forall in F. specialize (F _ H). discriminate F. }
  unfold run. intros H.
  assert (In (SetTimeout t)
             (snd (runSetup test cwd (initial_timeout test) (setup_events b)))
          \/ In (SetTimeout t)
               (snd (runCommand test cwd
                       (sub (initial_timeout test) (elapsed_ms (elapsed b)))
                       (run_events b)))) as [H1|H2].
  { unfold Proc.bind in H.
    destruct (runSetup test cwd (initial_timeout test) (setup_events b))
      as [[[]|e|] tr]; cbn [snd] in *; try (now left).
    destruct (runCommand test cwd _ (run_events b)) as [r tr'].
    cbn [snd] in *. apply in_app_or in H. tauto. }
  - left. unfold runSetup in H1. destruct (no_setup test); [contradiction H1|].
    unfold Proc.bind, Proc.emit, waitForExit in H1. cbn [events setup_child] in H1.
    pose proof (NA unit (setup_child (setup_events b)) (initial_timeout test)
                  (setup_events b) wait_init tt (tame_setup_child _)) as N.
    destruct (await (setup_child (setup_events b)) (initial_timeout test)
                (setup_events b) wait_init tt) as [r tr].
    cbn [snd app] in *.
    destruct H1 as [H1|[H1|[H1|H1]]]; try discriminate H1.
    + now inversion H1.
    + contradiction.
  - right. rewrite runCommand_unfold in H2.
    pose proof (NA jsstr (command_child (run_events b))
                  (sub (initial_timeout test) (elapsed_ms (elapsed b)))
                  (run_events b) wait_init [] (tame_command_child _)) as N.
    destruct (await (command_child (run_events b)) _ (run_events b) wait_init [])
      as [r tr].
    cbn [snd] in *. destruct H2 as [H2|[H2|H2]]; try discriminate H2.
    apply in_app_or in H2 as [H2|H2].
    + unfold stdin_trace in H2. destruct (has_input test); simpl in H2;
        intuition discriminate.
    + destruct H2 as [H2|H2]; [now inversion H2|contradiction].
Qed.

(** X14. Every timer [run] arms, for the setup and for the main command,
    has a delay that is at most the budget: the main command never gets more
    time than the test was given. *)
Theorem run_timers_within_budget :
  forall (test : Test) (cwd : jsstr) (b : behaviour) (t : number),
    In (SetTimeout t) (snd (run test cwd b)) ->
    gt t (initial_timeout test) = false.
Proof.
  intros test cwd b t H.
  destruct (initial_timeout_Num test) as (q & E & _).
  apply run_set_timeouts in H as [->| ->]; rewrite E.
  - cbn [gt]. apply negb_false_iff, Qle_bool_iff, Qle_refl.
  - destruct (elapsed b) as [sec ns]. rewrite elapsed_ms_floor.
    cbn [sub of_Z gt]. apply negb_false_iff, Qle_bool_iff.
    rewrite Qred_correct.
    assert (0 <= Z.of_N sec * 1000 + Z.of_N ns / 1000000)%Z as K.
    { apply Z.add_nonneg_nonneg; [lia|]. apply Z.div_pos; lia. }
    revert K. generalize (Z.of_N sec * 1000 + Z.of_N ns / 1000000)%Z as k.
    intros k K. unfold Qle, Qminus, Qplus, Qopp, inject_Z. cbn [Qnum Qden].
    nia.
Qed.

Lemma run_timers_within_budget_witness :
  gt (of_Z 40000) (initial_timeout slow_setup_test) = false.
Proof.
  apply (run_timers_within_budget slow_setup_test (js "/w") slow_setup_behaviour
           (of_Z 40000)).
  vm_compute. intuition.
Defined.

(** ** The report of runAll *)

Lemma runAll_loop_all_pass (cwd : jsstr) (tests : list Test) (bs : list behaviour)
  (s : store) :
  all_pass cwd tests bs = true ->
  runAll_loop tests cwd bs s = (Returned tt, loop_store cwd tests bs s)
  /\ v_failed (loop_store cwd tests bs s) = v_failed s
  /\ (strict_eq (v_points s) (v_availablePoints s) = true ->
      strict_eq (v_points (loop_store cwd tests bs s))
        (v_availablePoints (loop_store cwd tests bs s)) = true).
Proof.
  revert bs s. induction tests as [|test tests IH]; intros bs s H.
  - repeat split. auto.
  - cbn [all_pass] in H. apply andb_true_iff in H as [Hp H].
    cbn [runAll_loop loop_store]. unfold M.bind. rewrite runAll_test_closed.
    unfold passes in Hp.
    destruct (fst (run test cwd (hd silent bs))) as [x|e|] eqn:R;
      try discriminate Hp.
    destruct (IH (tl bs) (test_store test cwd (hd silent bs) s) H) as (E & F & Q).
    split; [exact E|]. split.
    + rewrite F. cbn [test_store v_failed]. now rewrite R, Hp.
    + intros Hs. apply Q. cbn [test_store v_points v_availablePoints].
      rewrite R. unfold available_after.
      destruct (points test) as [p|]; [|discriminate Hp]. cbn [strict_eq_opt] in Hp.
      destruct x as [|xq]; [discriminate Hp|]. destruct p as [|pq]; [discriminate Hp|].
      destruct (v_points s) as [|a]; [discriminate Hs|].
      destruct (v_availablePoints s) as [|c]; [discriminate Hs|].
      cbn [strict_eq truthy add] in *.
      apply Qeq_bool_iff in Hp. apply Qeq_bool_iff in Hs.
      destruct (Qeq_bool pq 0) eqn:Z0; cbn [negb strict_eq].
      * apply Qeq_bool_iff in Z0. apply Qeq_bool_iff.
        rewrite Qred_correct, Hp, Z0, Hs. apply Qplus_0_r.
      * apply Qeq_bool_iff. rewrite !Qred_correct, Hp, Hs. reflexivity.
Qed.

(** X15. When every test passes (its run returns a score strictly equal
    to its declared points), [runAll] ends with [failed] false, logs that all
    tests passed, and the total it reports is the available points, rounded:
    the total is rounded to the nearest integer and the available points are
    not. *)
Theorem all_pass_report :
  forall (tests : list Test) (cwd : jsstr) (w : world),
    all_pass cwd tests (behaviours w) = true ->
    v_failed (snd (runAll tests cwd w)) = false
    /\ In (Log AllTestsPassed) (v_trace (snd (runAll tests cwd w)))
    /\ strict_eq (v_points (snd (runAll tests cwd w)))
         (round (v_availablePoints (snd (runAll tests cwd w)))) = true.
Proof.
  intros tests cwd w H. rewrite runAll_unfold.
  destruct (runAll_loop_all_pass cwd tests (behaviours w) (runAll_start w) H)
    as (E & F & Q).
  rewrite E. specialize (Q eq_refl). cbn [runAll_start M.emits v_failed runAll_init] in F.
  set (s1 := loop_store cwd tests (behaviours w) (runAll_start w)) in *.
  assert (strict_eq (round (v_points s1)) (round (v_availablePoints s1)) = true) as R.
  { destruct (v_points s1) as [|a]; [discriminate Q|].
    destruct (v_availablePoints s1) as [|c]; [discriminate Q|].
    cbn [strict_eq round] in *. apply Qeq_bool_iff in Q. apply Qeq_bool_iff.
    assert (a + (1 # 2) == c + (1 # 2)) as E2 by now rewrite Q.
    now rewrite (Qfloor_comp _ _ E2). }
  unfold runAll_end. rewrite F.
  destruct (gt (round (v_points s1)) zero);
    cbn [snd v_failed v_trace v_points v_availablePoints];
    (split; [reflexivity|]); (split; [|exact R]);
    rewrite !in_app_iff; cbn [In]; tauto.
Qed.

Lemma all_pass_report_witness :
  v_failed (snd (runAll [echo_test; echo_test] (js "/w")
                   (quiet_world [echo_behaviour; echo_behaviour]))) = false.
Proof.
  refine (proj1 (all_pass_report [echo_test; echo_test] (js "/w")
                   (quiet_world [echo_behaviour; echo_behaviour]) _)).
  vm_compute. reflexivity.
Defined.

Lemma loop_store_available (cwd : jsstr) (tests : list Test) (bs : list behaviour)
  (s : store) :
  v_availablePoints (loop_store cwd tests bs s)
  = fold_left
      (fun a test =>
         match points test with
         | Some p => if truthy p then add a p else a
         | None => a
         end)
      tests (v_availablePoints s).
Proof.
  revert bs s. induction tests as [|test tests IH]; intros bs s; [reflexivity|].
  cbn [loop_store fold_left]. rewrite IH. reflexivity.
Qed.

(** X16. The available points that [runAll] ends with depend on the
    declared points only, not on what the tests did: when the children of
    every test settle, they are the sum of the declared points that are
    truthy, those of the tests that failed or threw included. *)
Theorem available_points_are_declared :
  forall (tests : list Test) (cwd : jsstr) (w : world),
    all_complete tests (behaviours w) = true ->
    v_availablePoints (snd (runAll tests cwd w)) = declared_points tests.
Proof.
  intros tests cwd w C.
  rewrite runAll_unfold, (runAll_loop_complete cwd tests _ _ C).
  unfold runAll_end.
  destruct (gt _ zero); cbn [snd v_availablePoints];
    apply loop_store_available.
Qed.

Lemma available_points_are_declared_witness :
  v_availablePoints (snd (runAll three_tests (js "/w") (quiet_world three_behaviours)))
  = of_Z 7.
Proof.
  rewrite (available_points_are_declared three_tests (js "/w")
             (quiet_world three_behaviours) eq_refl).
  reflexivity.
Defined.

Lemma loop_store_app (cwd : jsstr) (tests1 tests2 : list Test)
  (bs1 bs2 : list behaviour) (s : store) :
  List.length bs1 = List.length tests1 ->
  loop_store cwd (tests1 ++ tests2) (bs1 ++ bs2) s
  = loop_store cwd tests2 bs2 (loop_store cwd tests1 bs1 s).
Proof.
  revert bs1 s. induction tests1 as [|t ts IH]; intros bs1 s H.
  - destruct bs1; [reflexivity|discriminate H].
  - destruct bs1 as [|b bs1]; [discriminate H|].
    cbn [app loop_store hd tl]. apply IH. now inversion H.
Qed.

Lemma all_complete_app (tests1 tests2 : list Test) (bs1 bs2 : list behaviour) :
  List.length bs1 = List.length tests1 ->
  all_complete (tests1 ++ tests2) (bs1 ++ bs2)
  = all_complete tests1 bs1 && all_complete tests2 bs2.
Proof.
  revert bs1. induction tests1 as [|t ts IH]; intros bs1 H.
  - destruct bs1; [reflexivity|discriminate H].
  - destruct bs1 as [|b bs1]; [discriminate H|].
    cbn [app all_complete hd tl]. rewrite IH by now inversion H.
    now rewrite andb_assoc.
Qed.

Lemma loop_store_points_ext (cwd : jsstr) (tests : list Test) (bs : list behaviour)
  (s1 s2 : store) :
  v_points s1 = v_points s2 ->
  v_points (loop_store cwd tests bs s1) = v_points (loop_store cwd tests bs s2).
Proof.
  revert bs s1 s2. induction tests as [|t ts IH]; intros bs s1 s2 H; [exact H|].
  cbn [loop_store]. apply IH. cbn [test_store v_points]. now rewrite H.
Qed.

Lemma runAll_points (tests : list Test) (cwd : jsstr) (w : world) :
  all_complete tests (behaviours w) = true ->
  v_points (snd (runAll tests cwd w))
  = round (v_points (loop_store cwd tests (behaviours w) (runAll_start w))).
Proof.
  intros C. rewrite runAll_unfold, (runAll_loop_complete cwd tests _ _ C).
  unfold runAll_end. now destruct (gt _ zero).
Qed.

(** X17. A test whose run throws adds nothing to the total and takes
    nothing from it: the total [runAll] ends with is the one it ends with
    when that test, and the behaviour of its children, is taken out of the
    list. *)
Theorem thrown_test_leaves_total :
  forall (tests1 tests2 : list Test) (test : Test) (bs1 bs2 : list behaviour)
         (b : behaviour) (cwd tok : jsstr) (chk : template -> option error)
         (e : error),
    List.length bs1 = List.length tests1 ->
    all_complete (tests1 ++ test :: tests2) (bs1 ++ b :: bs2) = true ->
    fst (run test cwd b) = Thrown e ->
    v_points (snd (runAll (tests1 ++ test :: tests2) cwd
                     {| token := tok; behaviours := bs1 ++ b :: bs2;
                        setCheckRunOutput := chk |}))
    = v_points (snd (runAll (tests1 ++ tests2) cwd
                       {| token := tok; behaviours := bs1 ++ bs2;
                          setCheckRunOutput := chk |})).
Proof.
  intros tests1 tests2 test bs1 bs2 b cwd tok chk e Hl C R.
  assert (all_complete (tests1 ++ tests2) (bs1 ++ bs2) = true) as C'.
  { rewrite all_complete_app in * by exact Hl.
    apply andb_true_iff in C as [C1 C2]. cbn [all_complete hd tl] in C2.
    apply andb_true_iff in C2 as [_ C2]. now rewrite C1, C2. }
  rewrite !runAll_points by assumption. f_equal. cbn [behaviours].
  rewrite !loop_store_app by exact Hl. cbn [loop_store hd tl].
  apply loop_store_points_ext. cbn [test_store v_points]. now rewrite R.
Qed.

Lemma thrown_test_leaves_total_witness :
  v_points (snd (runAll ([echo_test] ++ failing_test :: [echo_test]) (js "/w")
                   {| token := js "t0";
                      behaviours := [echo_behaviour] ++ nth 1 three_behaviours silent
                                      :: [echo_behaviour];
                      setCheckRunOutput := fun _ => None |}))
  = v_points (snd (runAll ([echo_test] ++ [echo_test]) (js "/w")
                     {| token := js "t0";
                        behaviours := [echo_behaviour] ++ [echo_behaviour];
                        setCheckRunOutput := fun _ => None |})).
Proof.
  refine (thrown_test_leaves_total [echo_test] [echo_test] failing_test
            [echo_behaviour] [echo_behaviour] (nth 1 three_behaviours silent)
            (js "/w") (js "t0") (fun _ => None)
            (TestTimeoutError (timeout_message (of_Z 60000))) eq_refl eq_refl _).
  vm_compute. reflexivity.
Defined.

(** ** What is scored, and what the loop keeps *)

Lemma await_command_returned (e0 evs : list event) (timeout : number)
  (l out : jsstr) (tr : list proc_effect) :
  await (command_child e0) timeout evs wait_init l = (Returned out, tr) ->
  exists datas signal rest,
    evs = datas ++ ChildExit (Some 0%Z) signal :: rest
    /\ forallb is_data datas = true
    /\ out = l ++ stdout_text datas.
Proof.
  revert l tr. induction evs as [|ev evs IH]; intros l tr H; [discriminate H|].
  destruct ev as [ch|ch| |cd sg|err]; cbn in H.
  - destruct (await (command_child e0) timeout evs wait_init (l ++ ch))
      as [r tr2] eqn:A.
    inversion H; subst r. destruct (IH _ _ A) as (datas & sg & rest & -> & Hd & ->).
    exists (StdoutData ch :: datas), sg, rest. cbn [forallb is_data stdout_text].
    rewrite Hd, app_assoc. now repeat split.
  - destruct (await (command_child e0) timeout evs wait_init l) as [r tr2] eqn:A.
    inversion H; subst r. destruct (IH _ _ A) as (datas & sg & rest & -> & Hd & ->).
    exists (StderrData ch :: datas), sg, rest. cbn [forallb is_data stdout_text].
    rewrite Hd. now repeat split.
  - discriminate H.
  - destruct cd as [[|p|p]|]; try discriminate H. inversion H; subst out.
    exists [], sg, evs. rewrite app_nil_r. now repeat split.
  - discriminate H.
Qed.

(** X19. [runCommand] returns a score only for a child that exited with
    code 0 before its timer fired and before any [error]; the score is then
    extracted from the standard output up to that exit.  The output of a
    command that timed out, exited with another code or failed to spawn is
    never scored. *)
Theorem runCommand_scores_only_clean_exit :
  forall (test : Test) (cwd : jsstr) (timeout : number) (evs : list event)
         (x : number),
    fst (runCommand test cwd timeout evs) = Returned x ->
    exists datas signal rest,
      evs = datas ++ ChildExit (Some 0%Z) signal :: rest
      /\ forallb is_data datas = true
      /\ x = extract_score (stdout_text datas).
Proof.
  intros test cwd timeout evs x H. rewrite runCommand_unfold in H.
  destruct (await (command_child evs) timeout evs wait_init []) as [r tr] eqn:A.
  destruct r as [out| |]; try discriminate H. cbn [fst] in H.
  destruct (await_command_returned _ _ _ _ _ _ A) as (datas & sg & rest & E & Hd & ->).
  exists datas, sg, rest. repeat split; try assumption. now inversion H.
Qed.

Lemma runCommand_scores_only_clean_exit_witness :
  exists datas signal rest,
    run_events echo_behaviour = datas ++ ChildExit (Some 0%Z) signal :: rest
    /\ forallb is_data datas = true
    /\ of_Z 1 = extract_score (stdout_text datas).
Proof.
  exact (runCommand_scores_only_clean_exit echo_test (js "/w") (of_Z 60000)
           (run_events echo_behaviour) (of_Z 1) eq_refl).
Defined.

Lemma run_score_sign (test : Test) (cwd : jsstr) (b : behaviour) (x : number) :
  fst (run test cwd b) = Returned x ->
  x = NaN \/ exists q, x = Num q /\ 0 <= q.
Proof.
  unfold run. rewrite fst_bind.
  destruct (fst (runSetup test cwd (initial_timeout test) (setup_events b)));
    try discriminate.
  rewrite runCommand_unfold.
  destruct (await (command_child (run_events b)) _ (run_events b) wait_init [])
    as [r tr].
  destruct r as [out| |]; try discriminate. cbn [fst]. intros H.
  inversion H. apply extract_score_sign.
Qed.

Lemma runAll_loop_cons (test : Test) (tests : list Test) (cwd : jsstr)
  (bs : list behaviour) (s : store) :
  snd (runAll_loop (test :: tests) cwd bs s) =
    match fst (run test cwd (hd silent bs)) with
    | Blocked => test_store test cwd (hd silent bs) s
    | _ => snd (runAll_loop tests cwd (tl bs) (test_store test cwd (hd silent bs) s))
    end.
Proof.
  cbn [runAll_loop]. unfold M.bind. rewrite runAll_test_closed.
  now destruct (fst (run test cwd (hd silent bs))).
Qed.

(** X20. The loop of [runAll] only moves its variables one way, whether
    the tests pass, fail, throw or block: [failed], once true, stays true,
    and the total never decreases (it grows, stays, or becomes [NaN] and
    then stays [NaN]). *)
Theorem runAll_loop_monotone :
  forall (tests : list Test) (cwd : jsstr) (bs : list behaviour) (s : store),
    let s' := snd (runAll_loop tests cwd bs s) in
    (v_failed s = true -> v_failed s' = true)
    /\ (v_points s = NaN -> v_points s' = NaN)
    /\ (forall a, v_points s = Num a ->
                  v_points s' = NaN \/ exists a', v_points s' = Num a' /\ a <= a').
Proof.
  intros tests cwd. induction tests as [|test tests IH]; intros bs s.
  - cbn. split; [auto|]. split; [auto|]. intros a H. right. exists a.
    split; [exact H|apply Qle_refl].
  - cbn zeta. rewrite runAll_loop_cons.
    set (s1 := test_store test cwd (hd silent bs) s).
    assert ((v_failed s = true -> v_failed s1 = true)
            /\ (v_points s = NaN -> v_points s1 = NaN)
            /\ (forall a, v_points s = Num a ->
                          v_points s1 = NaN
                          \/ exists a', v_points s1 = Num a' /\ a <= a')) as Step.
    { unfold s1. cbn [test_store v_failed v_points].
      destruct (fst (run test cwd (hd silent bs))) as [x|e|] eqn:R.
      - split; [|split].
        + intros ->. now destruct (strict_eq_opt x (points test)).
        + intros ->. reflexivity.
        + intros a ->. destruct (run_score_sign _ _ _ _ R) as [->|(q & -> & Hq)].
          * now left.
          * right. eexists. split; [reflexivity|]. rewrite Qred_correct.
            rewrite <- (Qplus_0_r a) at 1. now apply Qplus_le_r.
      - split; [auto|]. split; [auto|]. intros a H. right. exists a.
        split; [exact H|apply Qle_refl].
      - split; [auto|]. split; [auto|]. intros a H. right. exists a.
        split; [exact H|apply Qle_refl]. }
    destruct Step as (S1 & S2 & S3).
    assert (forall s2,
              (v_failed s1 = true -> v_failed s2 = true)
              /\ (v_points s1 = NaN -> v_points s2 = NaN)
              /\ (forall a, v_points s1 = Num a ->
                            v_points s2 = NaN
                            \/ exists a', v_points s2 = Num a' /\ a <= a') ->
              (v_failed s = true -> v_failed s2 = true)
              /\ (v_points s = NaN -> v_points s2 = NaN)
              /\ (forall a, v_points s = Num a ->
                            v_points s2 = NaN
                            \/ exists a', v_points s2 = Num a' /\ a <= a'))
      as Trans.
    { intros s2 (I1 & I2 & I3). split; [auto|]. split; [auto|].
      intros a0 Ha. destruct (S3 a0 Ha) as [N|(a1 & E1 & L1)];
        [left; now apply I2|].
      destruct (I3 a1 E1) as [N|(a2 & E2 & L2)]; [now left|].
      right. exists a2. split; [exact E2|]. now apply (Qle_trans _ a1). }
    destruct (fst (run test cwd (hd silent bs))) as [x|er|].
    + apply Trans. apply (IH (tl bs) s1).
    + apply Trans. apply (IH (tl bs) s1).
    + exact (conj S1 (conj S2 S3)).
Qed.

Lemma runAll_loop_monotone_witness :
  v_failed (snd (runAll_loop [echo_test] (js "/w") [echo_behaviour] failed_store))
  = true.
Proof.
  refine (proj1 (runAll_loop_monotone [echo_test] (js "/w") [echo_behaviour]
                   failed_store) _).
  reflexivity.
Defined.
